(** * Alphabet shops and spell descriptions

    A shallow embedding of two leaf utilities of the game:

    - [dat/des/builder/alphashops.des]: the Lua script that picks a shop
      letter, names the shop keeper and sizes the inventory
      (module [Alphashops]);
    - [describe-spells.cc]: the C++ routines that lay out the spells of a
      book or of a monster for the description screens
      (module [DescribeSpells]).

    Lua numbers that the script uses are integers and are modelled as [Z];
    Lua strings and C++ [std::string] are [string]; C++ [int] is [Z]; a C++
    [char] is a [Z] kept in the signed 8-bit range with the wrap-around
    written out. *)

From Stdlib Require Import ZArith Ascii String DecimalString.
From stdpp Require Import base list gmap strings.

Local Open Scope Z_scope.

#[local] Set Warnings "-clear-no-such-hyp".

(** ** Strings shared by both parts *)

Definition chars (s : string) : list ascii := list_ascii_of_string s.

Definition str1 (c : ascii) : string := String c EmptyString.

Definition space : ascii := " "%char.
Definition newline : ascii := "010"%char.

(** [%d] of the printf family on an integer. *)
Definition dec (z : Z) : string := NilZero.string_of_int (Z.to_int z).

Fixpoint concat_strings (l : list string) : string :=
  match l with
  | [] => EmptyString
  | s :: t => String.append s (concat_strings t)
  end.

Module Alphashops.

(** *** The Lua string library, as far as the script uses it *)

(** [string.len]. *)
Definition string_len (s : string) : Z := Z.of_nat (String.length s).

(** The index translation of the Lua 5.1 string library: a negative
    position counts from the end of the string. *)
Definition posrelat (pos len : Z) : Z :=
  let pos := if pos <? 0 then pos + len + 1 else pos in
  if 0 <=? pos then pos else 0.

(** [string.sub (s, i, j)]: the characters from position [i] to position
    [j], both 1-based and inclusive, clipped to the string. *)
Definition string_sub (s : string) (i j : Z) : string :=
  let l := string_len s in
  let start := posrelat i l in
  let stop := posrelat j l in
  let start := if start <? 1 then 1 else start in
  let stop := if l <? stop then l else stop in
  if start <=? stop
  then substring (Z.to_nat (start - 1)) (Z.to_nat (stop - start + 1)) s
  else EmptyString.

(** [string.sub (s, i)]: the third argument defaults to [-1]. *)
Definition string_sub_from (s : string) (i : Z) : string := string_sub s i (-1).

(** [tolower] of the C locale. *)
Definition lower_char (c : ascii) : ascii :=
  let n := N_of_ascii c in
  if ((65 <=? n) && (n <=? 90))%N then ascii_of_N (n + 32) else c.

(** [string.lower]. *)
Fixpoint string_lower (s : string) : string :=
  match s with
  | EmptyString => EmptyString
  | String c t => String (lower_char c) (string_lower t)
  end.

(** [string.gsub (s, pat, repl)], first result, for a pattern that is one
    literal character: every occurrence of it is replaced by [repl].  The
    script only uses such patterns (a capital letter, a space, and a lone
    hyphen, which the pattern matcher reads as a literal because no item
    precedes it) and replacements without [%]. *)
Fixpoint gsub_char (s : string) (c : ascii) (repl : string) : string :=
  match s with
  | EmptyString => EmptyString
  | String x t =>
      if Ascii.eqb x c then String.append repl (gsub_char t c repl)
      else String x (gsub_char t c repl)
  end.

Definition string_gsub (s pat repl : string) : string :=
  match pat with
  | String c EmptyString => gsub_char s c repl
  | _ => s
  end.

(** The capital letters [A] to [Z], the shop letters. *)
Definition is_capital (c : ascii) : bool :=
  ((65 <=? N_of_ascii c) && (N_of_ascii c <=? 90))%N.

(** *** The random source of the engine *)

(** [crawl.random2 (max)]: 0 when [max <= 1], otherwise a number of
    [0 .. max - 1].  [draw] is the value the generator delivers; every
    number of the range is the result for some draw. *)
Definition random2 (draw : Z) (max : Z) : Z :=
  if max <=? 1 then 0 else draw mod max.

(** *** [ownername] *)

(** [one_in_20] is the outcome of [crawl.one_chance_in (20)], evaluated
    only when [s] is ["N"]; [made_name] is what [crawl.make_name ()]
    returns. *)
Definition ownername (s : string) (one_in_20 : bool) (made_name : string)
  : string :=
  if String.eqb s "N" && one_in_20 then "Nicolae"
  else
    let name := String.append s (string_sub_from (string_lower made_name) 2) in
    string_gsub name " " EmptyString.

(** *** [shopname] *)

Definition shopname (s : string) : option string :=
  if String.eqb s "A" then Some " type:Alliterative suffix:Accessories "
  else if String.eqb s "B" then Some " type:Bounteous suffix:Boutique "
  else if String.eqb s "C" then Some " type:Commerce suffix:Corner "
  else if String.eqb s "D" then Some " type:Desiderata suffix:Depot "
  else if String.eqb s "E" then Some " type:Eclectic suffix:Emporium "
  else if String.eqb s "F" then Some " type:Fabulous suffix:Fripperies "
  else if String.eqb s "G" then Some " type:Goods suffix:Gallery "
  else if String.eqb s "H" then Some " type:Humungous suffix:Hoard "
  else if String.eqb s "I" then Some " type:Incredible suffix:Inventory "
  else if String.eqb s "J" then Some " type:Jolly suffix:Junkyard "
  else if String.eqb s "K" then Some " type:Killer suffix:Kiosk "
  else if String.eqb s "L" then Some " type:Luxury suffix:Loot "
  else if String.eqb s "M" then Some " type:Merry suffix:Market "
  else if String.eqb s "N" then Some " type:Needful suffix:Niceties "
  else if String.eqb s "O" then Some " type:Offbeat suffix:Offerings "
  else if String.eqb s "P" then Some " type:Practical suffix:Paraphernalia "
  else if String.eqb s "Q" then Some " type:Quotidian suffix:Quintessences "
  else if String.eqb s "R" then Some " type:Retail suffix:Resort "
  else if String.eqb s "S" then Some " type:Superlative suffix:Supplies "
  else if String.eqb s "T" then Some " type:Tempting suffix:Trifles "
  else if String.eqb s "U" then Some " type:Unparalleled suffix:Utilities "
  else if String.eqb s "V" then Some " type:Vending suffix:Venue "
  else if String.eqb s "W" then Some " type:Whimsical suffix:Warehouse "
  else if String.eqb s "X" then Some " type:Xenial suffix:Xenodochy "
  else if String.eqb s "Y" then Some " type:Yearning suffix:Yield "
  else if String.eqb s "Z" then Some " type:Zaibatsu suffix:Zone "
  else None.

(** *** [shopcontents] *)

Definition shopcontents (s : string) : list string :=
  if String.eqb s "A" then
    [ "arbalest"; "book of alchemy"; "book of air";
      "manual of air magic"; "book of annihilations";
      "potion of ambrosia"; "scroll of acquirement q:1";
      "scroll of amnesia"; "staff of air";
      "manual of axes"; "manual of armour"; "wand of acid";
      "acid dragon scales"; "potion of attraction"; "book of armaments" ]
  else if String.eqb s "B" then
    [ "bardiche"; "battleaxe";
      "book of burglary"; "box of beasts"; "book of blasting";
      "book of blood";
      "broad axe"; "pair of boots"; "potion of berserk rage";
      "potion of brilliance";
      "scroll of blinking"; "scroll of brand weapon";
      "manual of bows"; "buckler"; "boomerang" ]
  else if String.eqb s "C" then
    [ "book of callings"; "book of cantrips";
      "club"; "book of changes"; "book of conjurations";
      "chain mail"; "cloak"; "crystal plate armour"; "potion of cancellation";
      "staff of cold"; "staff of conjuration"; "book of callings";
      "book of chaos";
      "manual of crossbows"; "manual of conjurations";
      "potion of curing"; "condenser vane"; "wand of charming" ]
  else if String.eqb s "D" then
    [ "book of death"; "book of debilitation";
      "book of dreams"; "book of the dragon"; "dagger";
      "demon blade"; "demon trident"; "demon whip"; "dire flail";
      "double sword"; "ring of dexterity"; "manual of dodging";
      "staff of death"; "wand of digging"; "dart"; "book of dangerous friends";
      "book of displacement"; "book of decay" ]
  else if String.eqb s "E" then
    [ "manual of evocations";
      "eveningstar"; "ring of evasion"; "executioner's axe";
      "potion of experience q:1"; "scroll of enchant armour"; "staff of earth";
      "book of the earth"; "scroll of enchant weapon"; "manual of earth magic";
      "everburning encyclopedia" ]
  else if String.eqb s "F" then
    [ "book of fire"; "book of flames"; "flail";
      "book of frost"; "falchion"; "fire dragon scales"; "potion of flight";
      "ring of fire"; "scroll of fear"; "staff of fire"; "fen folio";
      "ring of flight"; "scroll of fog"; "wand of flame";
      "manual of fighting"; "amulet of faith"; "manual of fire magic";
      "fustibalus" ]
  else if String.eqb s "G" then
    [ "amulet of guardian spirit"; "giant club";
      "giant spiked club"; "book of geomancy";
      "glaive"; "gold dragon scales"; "grand grimoire"; "great mace";
      "great sword"; "pair of gloves"; "great wizards, vol. ii";
      "great wizards, vol. vii" ]
  else if String.eqb s "H" then
    [ "halberd"; "hand axe";
      "hand crossbow"; "hunting sling"; "potion of heal wounds";
      "potion of haste"; "scroll of holy word"; "manual of hexes"; "hat";
      "helmet"; "book of hexes"; "book of the hunter" ]
  else if String.eqb s "I" then
    [ "ring of ice";
      "scroll of immolation"; "ice dragon scales"; "book of ice";
      "potion of invisibility"; "ring of intelligence"; "scroll of identify";
      "wand of iceblast"; "manual of invocations"; "manual of ice magic";
      "inescapable atlas"; "book of iron" ]
  else if String.eqb s "J" then [ "javelin" ]
  else if String.eqb s "K" then [ "any" ]
  else if String.eqb s "L" then
    [ "manual of long blades"; "large rock";
      "leather armour"; "long sword"; "potion of lignification"; "lajatang";
      "longbow"; "lightning rod"; "book of lightning" ]
  else if String.eqb s "M" then
    [ "manual of maces & flails";
      "book of minor magic"; "book of misfortune"; "book of maledictions";
      "morningstar"; "mace"; "potion of magic"; "wand of mindburst";
      "ring of magical power"; "amulet of magic regeneration"; "potion of might";
      "potion of mutation"; "scroll of magic mapping"; "book of the moon" ]
  else if String.eqb s "N" then
    [ "book of necromancy";
      "necronomicon"; "scroll of noise"; "manual of necromancy" ]
  else if String.eqb s "O" then [ "ozocubu's autobiography" ]
  else if String.eqb s "P" then
    [ "book of party tricks"; "book of power";
      "pearl dragon scales"; "phantom mirror"; "phial of floods";
      "plate armour"; "ring of poison resistance"; "manual of polearms";
      "wand of polymorph"; "ring of positive energy"; "ring of protection";
      "manual of poison magic"; "wand of paralysis";
      "ring of protection from fire"; "staff of poison";
      "ring of protection from cold"; "book of pain" ]
  else if String.eqb s "Q" then
    [ "quarterstaff"; "quicksilver dragon scales";
      "quick blade" ]
  else if String.eqb s "R" then
    [ "amulet of reflection";
      "amulet of regeneration"; "rapier"; "ring of resist corrosion";
      "potion of resistance"; "robe"; "ring mail"; "book of rime" ]
  else if String.eqb s "S" then
    [ "scarf"; "scimitar"; "short sword";
      "scale mail"; "book of storms"; "book of the sky";
      "ring of see invisible"; "ring of slaying"; "spear";
      "ring of strength"; "manual of stealth"; "scroll of summoning";
      "scythe"; "book of spatial translocations"; "scroll of silence";
      "shortbow"; "manual of staves"; "steam dragon scales";
      "shadow dragon scales"; "storm dragon scales"; "swamp dragon scales";
      "manual of short blades"; "manual of slings"; "manual of shields";
      "manual of spellcasting"; "manual of summonings"; "stone";
      "book of storms"; "book of sloth"; "book of the senses";
      "book of spectacle"; "book of the spheres"; "book of scorching" ]
  else if String.eqb s "T" then
    [ "scroll of torment";
      "book of transfigurations"; "scroll of teleportation"; "triple sword";
      "triple crossbow"; "troll leather armour"; "manual of throwing";
      "manual of translocations"; "manual of transmutations";
      "trident"; "throwing net"; "tower shield"; "tin of tremorstones";
      "book of the tundra"; "book of touch"; "there-and-back book";
      "trismegistus codex" ]
  else if String.eqb s "U" then
    [ "book of unlife"; "manual of unarmed combat";
      "the unrestrained analects" ]
  else if String.eqb s "V" then
    [ "scroll of vulnerability"; "book of vapours" ]
  else if String.eqb s "W" then
    [ "ring of wizardry"; "book of the warp"; "whip";
      "war axe"; "ring of willpower"; "book of winter"; "book of weapons";
      "book of the wilderness" ]
  else if String.eqb s "X" then [ "piece from xom's chessboard" ]
  else if String.eqb s "Y" then [ "young poisoner's handbook" ]
  else if String.eqb s "Z" then [ "any" ]
  else [ "any" ].

(** The length operator [#] on a table that is a sequence. *)
Definition table_len (t : list string) : Z := Z.of_nat (List.length t).

(** *** [pickletter] *)

(** One round of the [for] loop: [i] is the loop variable, the state is
    the local [alphabet]. *)
Definition pickletter_step (alphabet : string) (i : Z) : string :=
  let checkletter := string_sub alphabet i i in
  let itemlist := shopcontents checkletter in
  let itemcount := table_len itemlist in
  let itemcount := itemcount + 1 in
  if itemcount <? 5 then string_gsub alphabet checkletter "-"
  else alphabet.

(** The numeric [for i = 1, n]: the bound is evaluated once, before the
    first round. *)
Definition for_range {S : Type} (n : Z) (body : S -> Z -> S) (init : S) : S :=
  fold_left body (List.map (fun k => Z.of_nat k + 1) (List.seq 0 (Z.to_nat n))) init.

Definition pickletter_options : string :=
  let alphabet := "ABCDEFGHIJKLMNOPQRSTUVWXYZ" in
  let alphabet := for_range (string_len alphabet) pickletter_step alphabet in
  string_gsub alphabet "-" EmptyString.

(** [draw] feeds the one call of [crawl.random2]. *)
Definition pickletter (draw : Z) : string :=
  let options := pickletter_options in
  let number := random2 draw (string_len options) + 1 in
  let letter := string_sub options number number in
  letter.

(** *** The map's prelude: the size of the inventory *)

(** The [shopcount] that the prelude passes to [kfeat] for a given
    [letter]; [draw] feeds [crawl.random2]. *)
Definition shopcount (letter : string) (draw : Z) : Z :=
  let itemlist := shopcontents letter in
  let itemcount := table_len itemlist in
  let maxcount := Z.min 15 itemcount in
  let shopcount := 5 + random2 draw (maxcount - 4) in
  let shopcount := Z.min itemcount shopcount in
  shopcount.

(** The prelude up to [shopcount]: the letter and the count it places. *)
Definition prelude (draw_letter draw_count : Z) : string * Z :=
  let letter := pickletter draw_letter in
  (letter, shopcount letter draw_count).

(** *** The map's prelude: the tag and the shop *)

(** The argument of [tags]. *)
Definition prelude_tag (letter : string) : string :=
  "uniq_alphashops_" +:+ letter.

(** The argument of [kfeat].  [shopname] may return [nil], and to
    concatenate [nil] is an error: [None].  [inventory] is the text that
    [util.join] makes of the random subset; [count] is [shopcount]. *)
Definition kfeat_line (letter : string) (one_in_20 : bool)
  (made_name : string) (count : Z) (inventory : string) : option string :=
  let owner := ownername letter one_in_20 made_name in
  match shopname letter with
  | Some n =>
      Some ("s = general shop name:" +:+ owner +:+ n +:+ " count:"
            +:+ dec count +:+ " use_all ; " +:+ inventory)
  | None => None
  end.

(** *** Notions used to state the properties *)

(** The text up to the first blank: the first token of a line whose
    tokens are separated by blanks. *)
Fixpoint first_token (s : string) : string :=
  match s with
  | EmptyString => EmptyString
  | String c t => if Ascii.eqb c space then EmptyString else String c (first_token t)
  end.

(** The position of the first [c] in [s], counted from 0. *)
Fixpoint letter_position (c : ascii) (s : string) : Z :=
  match s with
  | EmptyString => 0
  | String x t => if Ascii.eqb x c then 0 else 1 + letter_position c t
  end.

End Alphashops.


Module DescribeSpells.

(** *** Values of the C++ side *)

(** The enums of the engine are integers. *)
Definition spell_type := Z.
Definition mon_spell_slot_flag := Z.
Definition colour_t := Z.
Definition coord_def := (Z * Z)%type.

Record dice_def := { num : Z; size : Z }.

(** An item, as far as this file looks into it: its [base_type].  The
    spells it holds are read through the engine ([spells_in_book]). *)
Record item_def := { base_type : Z; item_serial : Z }.

(** The player's knowledge of a monster, as far as this file reads it;
    [mi_spell_hd] is the value of the method [spell_hd ()]. *)
Record monster_info := {
  mi_type : Z;
  mi_pos : coord_def;
  mi_hd : Z;
  mi_spell_hd : Z;
  mi_attitude : Z
}.

Record spellbook_contents := { label : string; spells : list spell_type }.

Definition spellset := list spellbook_contents.

(** A C++ [char]: signed, 8 bits.  Storing an [int] into it wraps. *)
Definition wrap_char (z : Z) : Z := (z + 128) mod 256 - 128.
Definition char_a : Z := 97.
Definition char_blank : Z := 32.
Definition ascii_of_char (c : Z) : ascii := ascii_of_N (Z.to_N (c mod 256)).

(** [next_ch++]: the value before the increment, and the new content. *)
Definition char_post_incr (next_ch : Z) : Z * Z := (next_ch, wrap_char (next_ch + 1)).

(** [size_t]: unsigned, 64 bits. *)
Definition wrap_size_t (z : Z) : Z := z mod 2 ^ 64.

(** The conversion of a [size_t] to [int]: signed, 32 bits. *)
Definition wrap_int (z : Z) : Z := (z + 2 ^ 31) mod 2 ^ 32 - 2 ^ 31.

Definition str_length (s : string) : Z := Z.of_nat (String.length s).

(** The text a [printf] format leaves in a C buffer ends at the first NUL. *)
Fixpoint c_str (s : string) : string :=
  match s with
  | EmptyString => EmptyString
  | String c t => if Ascii.eqb c zero then EmptyString else String c (c_str t)
  end.

(** [make_stringf]: the pieces are the expansions of the format's
    literal runs and conversions, in order. *)
Definition make_stringf (pieces : list string) : string :=
  c_str (concat_strings pieces).

(** A pointer that may be null is an [option]; [!p] tests for null. *)
Definition is_null {A : Type} (p : option A) : bool :=
  match p with None => true | Some _ => false end.

(** [testbits (flags, test)]. *)
Definition testbits (flags test : Z) : bool := Z.land flags test =? test.

(** *** Faults *)

(** What can go wrong in the modelled code: indexing a string outside of
    [0 .. length], reading through a null pointer, and a recursion that
    does not come back within the fuel given. *)
Inductive fault := out_of_range (pos : Z) | null_pointer | out_of_fuel.

Inductive result (A : Type) := Ok (a : A) | Fault (f : fault).
Arguments Ok {A} a.
Arguments Fault {A} f.

Definition rbind {A B : Type} (m : result A) (k : A -> result B) : result B :=
  match m with
  | Ok a => k a
  | Fault f => Fault f
  end.

Notation "'let!' x ':=' m 'in' k" := (rbind m (fun x => k))
  (at level 10, x name, m at level 100, k at level 200).

Definition is_ok {A : Type} (m : result A) : bool :=
  match m with Ok _ => true | Fault _ => false end.

(** [s[pos]] on a [std::string]: defined for [pos <= s.length ()], the
    position [s.length ()] holding the terminator. *)
Definition string_at (s : string) (pos : Z) : result ascii :=
  if (0 <=? pos) && (pos <? str_length s) then
    match String.get (Z.to_nat pos) s with
    | Some c => Ok c
    | None => Fault (out_of_range pos)
    end
  else if pos =? str_length s then Ok zero
  else Fault (out_of_range pos).

(** A loop over a list whose body can fail. *)
Fixpoint rfold {A S : Type} (body : S -> A -> result S) (l : list A) (st : S)
  : result S :=
  match l with
  | [] => Ok st
  | x :: t => let! st' := body st x in rfold body t st'
  end.

(** The values of [for (int i = lo; i < hi; i++)]. *)
Definition int_range (lo hi : Z) : list Z :=
  List.map (fun k => lo + Z.of_nat k) (List.seq 0 (Z.to_nat (hi - lo))).

(** *** Output *)

(** A [formatted_string] under construction: the calls made on it.
    [fs_parse_string s] stands for the operations that
    [formatted_string::parse_string (s)] contributes. *)
Inductive fs_op :=
| fs_textcolour (c : colour_t)
| fs_cprintf (s : string)
| fs_parse_string (s : string).

Definition formatted_string := list fs_op.

(** The calls made on the JSON writer [tiles]. *)
Inductive json_op :=
| json_open_object
| json_close_object
| json_open_array (name : string)
| json_close_array
| json_write_string (name value : string)
| json_write_int (name : string) (value : Z)
| json_write_name (name : string)
| write_tileidx (idx : Z).

(** *** The engine *)

(** The constants, tables and helpers that this file takes from the rest
    of the engine.  They are read-only. *)
Record engine := {
  SPELL_FREEZE : spell_type;
  SPELL_WATERSTRIKE : spell_type;
  SPELL_IOOD : spell_type;
  SPELL_GLACIATE : spell_type;
  SPELL_CONJURE_BALL_LIGHTNING : spell_type;
  SPELL_SEARING_BREATH : spell_type;
  SPELL_CONJURE_LIVING_SPELLS : spell_type;
  SPELL_SMITING : spell_type;
  SPELL_MARSHLIGHT : spell_type;
  SPELL_LEHUDIBS_CRYSTAL_SPEAR : spell_type;
  MONS_XTAHUA : Z;
  ATT_FRIENDLY : Z;
  NUM_ZAPS : Z;
  INFINITE_DISTANCE : Z;
  OBJ_RODS : Z;
  TAG_MAJOR_VERSION : Z;
  DEBUG_DIAGNOSTICS : bool;
  MON_SPELL_NATURAL : mon_spell_slot_flag;
  MON_SPELL_MAGICAL : mon_spell_slot_flag;
  MON_SPELL_PRIEST : mon_spell_slot_flag;
  MON_SPELL_VOCAL : mon_spell_slot_flag;
  MON_SPELL_WIZARD : mon_spell_slot_flag;
  BLACK : colour_t;
  DARKGRAY : colour_t;
  WHITE : colour_t;
  LIGHTBLUE : colour_t;
  LIGHTMAGENTA : colour_t;
  LIGHTGREY : colour_t;
  NUM_TERM_COLOURS : colour_t;
  COL_UNKNOWN : colour_t;
  COL_MEMORIZED : colour_t;
  COL_UNMEMORIZED : colour_t;
  COL_USELESS : colour_t;
  COL_FORBIDDEN : colour_t;
  spflag_selfench : Z;
  spflag_WL_check : Z;
  get_spell_flags : spell_type -> Z;
  mons_power_for_hd : spell_type -> Z -> Z;
  spell_range : spell_type -> Z -> bool -> Z;
  in_bounds : coord_def -> bool;
  grid_distance : coord_def -> coord_def -> Z;
  freeze_damage : Z -> dice_def;
  waterstrike_damage : Z -> dice_def;
  iood_damage : Z -> Z -> bool -> dice_def;
  glaciate_damage : Z -> Z -> dice_def;
  ball_lightning_damage : Z -> dice_def;
  mons_ball_lightning_hd : Z -> bool -> Z;
  spell_to_zap : spell_type -> Z;
  zap_damage : Z -> Z -> bool -> bool -> dice_def;
  zap_colour : Z -> colour_t;
  colour_to_str : colour_t -> string;
  mons_spell_is_spell : spell_type -> bool;
  living_spell_type_for : Z -> spell_type;
  living_spell_count : spell_type -> bool -> Z;
  spell_title : spell_type -> string;
  spell_difficulty : spell_type -> Z;
  spell_levels_required : spell_type -> Z;
  god_hates_spell : spell_type -> Z -> bool;
  chop_string : string -> Z -> string;
  spschools_range : list Z;
  spell_typematch : spell_type -> Z -> bool;
  spelltype_long_name : Z -> string;
  item_has_spells : item_def -> bool;
  spells_in_book : item_def -> list spell_type;
  comma_separated_line : list string -> string;
  tileidx_spell : spell_type -> Z
}.

(** The mutable globals [crawl_state] and [you], as far as this file reads
    them, and the engine's helpers that read them.  [element_colour]
    animates: its last argument numbers the call. *)
Record game_state := {
  need_save : bool;
  you_pos : coord_def;
  you_has_spell : spell_type -> bool;
  you_can_memorise : spell_type -> bool;
  you_experience_level : Z;
  player_spell_levels : Z;
  you_religion : Z;
  you_immune_to_hex : spell_type -> bool;
  you_spell_library : spell_type -> bool;
  hex_chance : spell_type -> monster_info -> Z;
  spell_highlight_by_utility : spell_type -> colour_t -> colour_t;
  element_colour : colour_t -> bool -> coord_def -> Z -> colour_t
}.

Section Code.

Context (E : engine).

(** *** [item_spellset] *)

Definition item_spellset (item : item_def) : spellset :=
  if negb (item_has_spells E item) then []
  else [ {| label := str1 newline; spells := spells_in_book E item |} ].

(** *** [_ability_type_descriptor] *)

(** The initializer of the static [std::map]; building the map keeps the
    first entry of a key. *)
Definition descriptors : list (mon_spell_slot_flag * string) :=
  [ (MON_SPELL_NATURAL E, "natural");
    (MON_SPELL_MAGICAL E, "magical");
    (MON_SPELL_PRIEST E, "divine");
    (MON_SPELL_VOCAL E, "natural") ].

(** [lookup (map, key, unfound)]. *)
Definition lookup (m : list (Z * string)) (key : Z) (unfound : string) : string :=
  match List.find (fun e => fst e =? key) m with
  | Some e => snd e
  | None => unfound
  end.

Definition _ability_type_descriptor (type : mon_spell_slot_flag) : string :=
  lookup descriptors type "buggy".

(** *** [_spellset_contents] *)

(** First pass: [unique_spells.insert (spell)] over all books. *)
Definition insert_book (unique_spells : gset Z) (book : spellbook_contents)
  : gset Z :=
  fold_left (fun u spell => {[ spell ]} ∪ u) (spells book) unique_spells.

(** Second pass, one spell: [erase] returns 1 exactly when the spell was
    still in the set. *)
Definition erase_emit (st : gset Z * list spell_type) (spell : spell_type)
  : gset Z * list spell_type :=
  let '(unique_spells, spell_list) := st in
  if decide (spell ∈ unique_spells)
  then (unique_spells ∖ {[ spell ]}, spell_list ++ [spell])
  else (unique_spells, spell_list).

Definition _spellset_contents (spells_ : spellset) : list spell_type :=
  let unique_spells := fold_left insert_book spells_ ∅ in
  let st :=
    fold_left (fun st book => fold_left erase_emit (spells book) st)
              spells_ (unique_spells, []) in
  snd st.

(** *** [_spell_schools] *)

Definition _spell_schools (spell : spell_type) : string :=
  fold_left
    (fun schools school_flag =>
       if negb (spell_typematch E spell school_flag) then schools
       else
         let schools :=
           if negb (str_length schools =? 0) then schools +:+ "/" else schools in
         schools +:+ c_str (spelltype_long_name E school_flag))
    (spschools_range E) EmptyString.

(** *** [_list_spells_doublecolumn] and [map_chars_to_spells] *)

Definition _list_spells_doublecolumn (source_item : option item_def) : bool :=
  is_null source_item.

(** [ret.emplace_back (pair (spell, next_ch++))]. *)
Definition emplace_spell (st : Z * list (spell_type * Z)) (spell : spell_type)
  : Z * list (spell_type * Z) :=
  let '(next_ch, ret) := st in
  let '(ch, next_ch) := char_post_incr next_ch in
  (next_ch, ret ++ [(spell, ch)]).

(** [for (size_t i = start; i < flat_spells.size (); i += 2)]; the fuel
    bounds the number of rounds. *)
Fixpoint stride_loop (fuel : nat) (flat_spells : list spell_type) (i : nat)
  (st : Z * list (spell_type * Z)) : Z * list (spell_type * Z) :=
  match fuel with
  | O => st
  | S fuel' =>
      match flat_spells !! i with
      | Some spell => stride_loop fuel' flat_spells (i + 2) (emplace_spell st spell)
      | None => st
      end
  end.

Definition map_chars_to_spells (spells_ : spellset)
  (source_item : option item_def) : list (spell_type * Z) :=
  let next_ch := char_a in
  let flat_spells := _spellset_contents spells_ in
  if negb (_list_spells_doublecolumn source_item) then
    snd (fold_left emplace_spell flat_spells (next_ch, []))
  else
    let n := List.length flat_spells in
    let st := stride_loop n flat_spells 0 (next_ch, []) in
    let st := stride_loop n flat_spells 1 st in
    snd st.

(** *** Colours *)

Section State.

Context (G : game_state).

(** [_spell_colour (spell, source_item)]: the colour a spell is listed
    with. *)
Definition _spell_colour_listed (spell : spell_type)
  (source_item : option item_def) : colour_t :=
  if negb (need_save G) then COL_UNKNOWN E
  else
    match source_item with
    | None => spell_highlight_by_utility G spell (COL_UNKNOWN E)
    | Some _ =>
        if you_has_spell G spell then COL_MEMORIZED E
        else if negb (you_can_memorise G spell)
                || (you_experience_level G <? spell_difficulty E spell)
                || (player_spell_levels G <? spell_levels_required E spell)
        then COL_USELESS E
        else if god_hates_spell E spell (you_religion G) then COL_FORBIDDEN E
        else if negb (you_has_spell G spell) then COL_UNMEMORIZED E
        else spell_highlight_by_utility G spell (COL_UNKNOWN E)
    end.

(** [_spell_colour (spell)]: the colour of a spell's effect. *)
Definition _spell_colour (spell : spell_type) : colour_t :=
  if spell =? SPELL_FREEZE E then WHITE E
  else if spell =? SPELL_GLACIATE E then WHITE E
  else if spell =? SPELL_WATERSTRIKE E then LIGHTBLUE E
  else if spell =? SPELL_IOOD E then LIGHTMAGENTA E
  else
    let zap := spell_to_zap E spell in
    if zap =? NUM_ZAPS E then COL_UNKNOWN E
    else zap_colour E zap.

(** *** [_range_string] *)

Definition _range_string (spell : spell_type)
  (mon_owner : option monster_info) (hd : Z) : string :=
  let flags := get_spell_flags E spell in
  let pow := mons_power_for_hd E spell hd in
  let range := spell_range E spell pow false in
  let has_range :=
    match mon_owner with
    | Some _ => (0 <? range) && negb (testbits flags (spflag_selfench E))
    | None => false
    end in
  if negb has_range then EmptyString
  else
    let in_range :=
      match mon_owner with
      | Some mon =>
          has_range && need_save G && in_bounds E (mi_pos mon)
          && (grid_distance E (you_pos G) (mi_pos mon) <=? range)
      | None => false
      end in
    let range_col := if in_range then "lightred" else "lightgray" in
    make_stringf ["(<"; range_col; ">"; dec range; "</"; range_col; ">)"].

(** *** [_spell_damage] and [_spell_hd] *)

Definition _spell_damage (spell : spell_type) (hd : Z) : dice_def :=
  let pow := mons_power_for_hd E spell hd in
  if spell =? SPELL_FREEZE E then freeze_damage E pow
  else if spell =? SPELL_WATERSTRIKE E then waterstrike_damage E hd
  else if spell =? SPELL_IOOD E then iood_damage E pow (INFINITE_DISTANCE E) false
  else if spell =? SPELL_GLACIATE E then glaciate_damage E pow 3
  else if spell =? SPELL_CONJURE_BALL_LIGHTNING E
  then ball_lightning_damage E (mons_ball_lightning_hd E pow false)
  else
    let zap := spell_to_zap E spell in
    if zap =? NUM_ZAPS E then {| num := 0; size := 0 |}
    else zap_damage E zap pow true false.

Definition _spell_hd (spell : spell_type) (mon_owner : monster_info) : Z :=
  if (spell =? SPELL_SEARING_BREATH E) && (mi_type mon_owner =? MONS_XTAHUA E)
  then Z.quot (mi_hd mon_owner * 3) 2
  else if mons_spell_is_spell E spell then mi_spell_hd mon_owner
  else mi_hd mon_owner.

(** *** [_colourize] *)

(** One round of the loop of [_colourize]. *)
Definition colourize_step (base : string) (col : colour_t) (out : string)
  (i : Z) : result string :=
  let term_col := element_colour G col false (you_pos G) i in
  let col_name := colour_to_str E term_col in
  let! c := string_at base i in
  Ok (out +:+ "<" +:+ col_name +:+ ">" +:+ str1 c
          +:+ "</" +:+ col_name +:+ ">").

Definition _colourize (base : string) (col : colour_t) : result string :=
  if col <? NUM_TERM_COLOURS E then
    let col := if col =? BLACK E then DARKGRAY E else col in
    let col_name := colour_to_str E col in
    Ok (make_stringf ["<"; c_str col_name; ">"; c_str base; "</";
                      c_str col_name; ">"])
  else
    let! c0 := string_at base 0 in
    let out := make_stringf [str1 c0] in
    let! out := rfold (colourize_step base col)
                      (int_range 1 (wrap_int (str_length base) - 1)) out in
    let! cl := string_at base (wrap_size_t (str_length base - 1)) in
    Ok (out +:+ str1 cl).

(** *** [_describe_living_spells] and [_effect_string] *)

(** [effect_string] is the function that [_describe_living_spells]
    calls back. *)
Definition _describe_living_spells
  (effect_string : spell_type -> option monster_info -> result string)
  (mon_owner : monster_info) : result string :=
  let spell := living_spell_type_for E (mi_type mon_owner) in
  let n := living_spell_count E spell false in
  let! base_desc := effect_string spell (Some mon_owner) in
  let! c0 := string_at base_desc 0 in
  let desc :=
    if Ascii.eqb c0 "(" then base_desc
    else make_stringf ["("; c_str base_desc; ")"] in
  Ok (make_stringf [dec n; "x"; c_str desc]).

(** The two functions call each other; [fuel] bounds the depth of the
    calls. *)
Fixpoint _effect_string (fuel : nat) (spell : spell_type)
  (mon_owner : option monster_info) : result string :=
  match mon_owner with
  | None => Ok EmptyString
  | Some mon =>
      if spell =? SPELL_CONJURE_LIVING_SPELLS E then
        match fuel with
        | O => Fault out_of_fuel
        | S fuel' => _describe_living_spells (_effect_string fuel') mon
        end
      else
        let hd := _spell_hd spell mon in
        if hd =? 0 then Ok EmptyString
        else if testbits (get_spell_flags E spell) (spflag_WL_check E) then
          if negb (need_save G)
             || (negb (DEBUG_DIAGNOSTICS E)
                 && (mi_attitude mon =? ATT_FRIENDLY E))
          then Ok EmptyString
          else if you_immune_to_hex G spell then Ok "(immune)"
          else Ok (make_stringf ["("; dec (hex_chance G spell mon); "%)"])
        else if spell =? SPELL_SMITING E then Ok "7-17"
        else
          let dam := _spell_damage spell hd in
          if (num dam =? 0) || (size dam =? 0) then Ok EmptyString
          else
            let mult :=
              if spell =? SPELL_MARSHLIGHT E then "2x"
              else if spell =? SPELL_CONJURE_BALL_LIGHTNING E then "3x"
              else EmptyString in
            Ok (make_stringf ["("; c_str mult; dec (num dam); "d";
                              dec (size dam); ")"])
  end.

(** *** The letter of a spell *)

(** [find_if] over [spell_map], then the letter of the entry found, or a
    blank. *)
Definition spell_letter_of (spell_map : list (spell_type * Z))
  (spell : spell_type) : Z :=
  let entry := List.find (fun e => fst e =? spell) spell_map in
  match entry with
  | Some e => snd e
  | None => char_blank
  end.

(** *** [_describe_book] *)

(** The text that [_describe_book] hands to [parse_string] for one
    spell. *)
Definition book_line (spell_letter : Z) (spell_name : string) (chop_len : Z)
  (effect_str : string) (effect_range_space : Z) (range_str : string) : string :=
  make_stringf [ str1 (ascii_of_char spell_letter); " - ";
                 c_str (chop_string E spell_name chop_len);
                 c_str effect_str;
                 if negb (effect_range_space =? 0) then " " else EmptyString;
                 c_str range_str ].

(** One round of the loop over [book.spells]; the state is the
    description and [first_line_element]. *)
Definition describe_book_spell (fuel : nat)
  (spell_map : list (spell_type * Z)) (source_item : option item_def)
  (mon_owner : option monster_info) (hd : Z) (doublecolumn : bool)
  (st : formatted_string * bool) (spell : spell_type)
  : result (formatted_string * bool) :=
  let '(description, first_line_element) := st in
  let description := description ++ [fs_cprintf " "] in
  let description :=
    match mon_owner with
    | None =>
        description ++ [fs_textcolour (_spell_colour_listed spell source_item)]
    | Some _ => description
    end in
  let spell_letter := spell_letter_of spell_map spell in
  let range_str := _range_string spell mon_owner hd in
  let! effect_str := _effect_string fuel spell mon_owner in
  let effect_len := wrap_int (str_length effect_str) in
  let range_len := if str_length range_str =? 0 then 0 else 3 in
  let effect_range_space :=
    if negb (effect_len =? 0) && negb (range_len =? 0) then 1 else 0 in
  let chop_len := 30 - effect_len - range_len - effect_range_space in
  let! effect_str :=
    if negb (effect_len =? 0)
       && negb (testbits (get_spell_flags E spell) (spflag_WL_check E))
    then _colourize effect_str (_spell_colour spell)
    else Ok effect_str in
  let spell_name := c_str (spell_title E spell) in
  let spell_name :=
    if (spell =? SPELL_LEHUDIBS_CRYSTAL_SPEAR E)
       && (chop_len <? wrap_int (str_length spell_name))
    then "Crystal Spear" else spell_name in
  let description :=
    description ++ [fs_parse_string
                      (book_line spell_letter spell_name chop_len effect_str
                                 effect_range_space range_str)] in
  if doublecolumn then
    let description :=
      description ++ [fs_cprintf (if first_line_element then "    "
                                  else str1 newline)] in
    Ok (description, negb first_line_element)
  else
    match source_item with
    | None => Fault null_pointer
    | Some item =>
        let schools :=
          if (TAG_MAJOR_VERSION E =? 34) && (base_type item =? OBJ_RODS E)
          then "Evocations" else _spell_schools spell in
        let known :=
          if is_null mon_owner && need_save G then
            if you_spell_library G spell then "         yes"
            else "          no"
          else EmptyString in
        let description :=
          description ++ [fs_cprintf
                            (make_stringf [ c_str (chop_string E schools 30);
                                            dec (spell_difficulty E spell);
                                            c_str known; str1 newline ])] in
        Ok (description, first_line_element)
    end.

Definition _describe_book (fuel : nat) (book : spellbook_contents)
  (spell_map : list (spell_type * Z)) (source_item : option item_def)
  (description : formatted_string) (mon_owner : option monster_info)
  : result formatted_string :=
  let description := description ++ [fs_textcolour (LIGHTGREY E)] in
  let description :=
    description ++ [fs_cprintf (make_stringf [c_str (label book)])] in
  let description :=
    match source_item with
    | Some _ =>
        let description :=
          description ++ [fs_cprintf
            (str1 newline +:+
             " Spells                            Type                      Level")] in
        if need_save G then description ++ [fs_cprintf "       Known"]
        else description
    | None => description
    end in
  let description := description ++ [fs_cprintf (str1 newline)] in
  let doublecolumn := _list_spells_doublecolumn source_item in
  let first_line_element := true in
  let hd := match mon_owner with Some mon => mi_spell_hd mon | None => 0 end in
  let! st := rfold (describe_book_spell fuel spell_map source_item mon_owner
                                        hd doublecolumn)
                   (spells book) (description, first_line_element) in
  let description := fst st in
  if doublecolumn && negb (Z.of_nat (List.length (spells book)) mod 2 =? 0)
  then Ok (description ++ [fs_cprintf (str1 newline)])
  else Ok description.

(** *** [describe_spellset] *)

Definition describe_spellset (fuel : nat) (spells_ : spellset)
  (source_item : option item_def) (description : formatted_string)
  (mon_owner : option monster_info) : result formatted_string :=
  let spell_map := map_chars_to_spells spells_ source_item in
  rfold (fun description book =>
           _describe_book fuel book spell_map source_item description mon_owner)
        spells_ description.

(** *** [_write_book] and [write_spellset] *)

(** One round of the loop over [book.spells]; the state is the list of
    calls made on [tiles] so far. *)
Definition write_book_spell (fuel : nat) (spell_map : list (spell_type * Z))
  (source_item : option item_def) (mon_owner : option monster_info) (hd : Z)
  (out : list json_op) (spell : spell_type) : result (list json_op) :=
  let out := out ++ [json_open_object] in
  let out := out ++ [json_write_string "title" (c_str (spell_title E spell))] in
  let out :=
    out ++ [json_write_int "colour" (_spell_colour_listed spell source_item)] in
  let out := out ++ [json_write_name "tile"] in
  let out := out ++ [write_tileidx (tileidx_spell E spell)] in
  let spell_letter := spell_letter_of spell_map spell in
  let out :=
    out ++ [json_write_string "letter" (str1 (ascii_of_char spell_letter))] in
  let! effect_str := _effect_string fuel spell mon_owner in
  let! effect_str :=
    if negb (testbits (get_spell_flags E spell) (spflag_WL_check E))
    then _colourize effect_str (_spell_colour spell)
    else Ok effect_str in
  let out := out ++ [json_write_string "effect" effect_str] in
  let range_str := _range_string spell mon_owner hd in
  let out :=
    if 0 <? str_length range_str
    then out ++ [json_write_string "range_string" range_str] else out in
  let schools :=
    if TAG_MAJOR_VERSION E =? 34 then
      match source_item with
      | Some item =>
          if base_type item =? OBJ_RODS E then "Evocations"
          else _spell_schools spell
      | None => _spell_schools spell
      end
    else _spell_schools spell in
  let out := out ++ [json_write_string "schools" schools] in
  let out := out ++ [json_write_int "level" (spell_difficulty E spell)] in
  Ok (out ++ [json_close_object]).

Definition _write_book (fuel : nat) (book : spellbook_contents)
  (spell_map : list (spell_type * Z)) (source_item : option item_def)
  (mon_owner : option monster_info) (out : list json_op)
  : result (list json_op) :=
  let out := out ++ [json_open_object] in
  let out := out ++ [json_write_string "label" (label book)] in
  let hd := match mon_owner with Some mon => mi_spell_hd mon | None => 0 end in
  let out := out ++ [json_open_array "spells"] in
  let! out := rfold (write_book_spell fuel spell_map source_item mon_owner hd)
                    (spells book) out in
  let out := out ++ [json_close_array] in
  Ok (out ++ [json_close_object]).

Definition write_spellset (fuel : nat) (spells_ : spellset)
  (source_item : option item_def) (mon_owner : option monster_info)
  (out : list json_op) : result (list json_op) :=
  let spell_map := map_chars_to_spells spells_ source_item in
  let out := out ++ [json_open_array "spellset"] in
  let! out := rfold (fun out book =>
                       _write_book fuel book spell_map source_item mon_owner out)
                    spells_ out in
  Ok (out ++ [json_close_array]).

(** *** [describe_item_spells] and [terse_spell_list] *)

(** The description before [tostring ()]. *)
Definition describe_item_spells (fuel : nat) (item : item_def)
  : result formatted_string :=
  describe_spellset fuel (item_spellset item) (Some item) [] None.

(** The text pushed onto [spell_descs] for one spell. *)
Definition terse_spell_desc (spell : spell_type) : string :=
  make_stringf [ c_str (spell_title E spell); " (L";
                 dec (spell_difficulty E spell); " ";
                 c_str (_spell_schools spell); ")" ].

Definition terse_spell_list (item : item_def) : string :=
  let spell_descs := List.map terse_spell_desc (spells_in_book E item) in
  "Spells: " +:+ comma_separated_line E spell_descs.

End State.

End Code.

(** *** Monster books *)

(** A spell slot of a monster. *)
Record mon_spell_slot := {
  slot_spell : spell_type;
  slot_freq : Z;
  slot_flags : Z
}.

(** What the functions for monster books take from the rest of the
    engine, beyond [engine].  [mi_has_spells], [mi_pronoun_subjective]
    and [mi_pronoun_plurality] are the methods [has_spells ()],
    [pronoun (PRONOUN_SUBJECTIVE)] and [pronoun_plurality ()] of
    [monster_info]; [soh_breath_spells] returns a pointer, the null
    pointer being [None]. *)
Record monster_engine := {
  SPELL_ABJURATION : spell_type;
  spflag_mons_abjure : Z;
  mi_has_spells : monster_info -> bool;
  get_unique_spells : monster_info -> mon_spell_slot_flag -> list mon_spell_slot;
  spell_is_soh_breath : spell_type -> bool;
  soh_breath_spells : spell_type -> option (list spell_type);
  mi_pronoun_subjective : monster_info -> string;
  mi_pronoun_plurality : monster_info -> bool;
  uppercase_first : string -> string;
  conjugate_verb : string -> bool -> string
}.

Section MonsterBooks.

Context (E : engine) (M : monster_engine).

(** In this section a result is an [option]: [None] is a failed
    [ASSERT], which ends the game. *)

Definition _abil_type_vuln_core (silencable antimagicable : bool) : string :=
  if negb antimagicable then "silence"
  else if silencable then "silence and antimagic"
  else "antimagic (but not silence)".

Definition _ability_type_vulnerabilities (type : mon_spell_slot_flag)
  : option string :=
  if type =? MON_SPELL_NATURAL E then Some EmptyString
  else
    let silencable :=
      (type =? MON_SPELL_WIZARD E) || (type =? MON_SPELL_PRIEST E)
      || (type =? MON_SPELL_VOCAL E) in
    let antimagicable :=
      (type =? MON_SPELL_WIZARD E) || (type =? MON_SPELL_MAGICAL E) in
    if negb (silencable || antimagicable) then None
    else
      Some (make_stringf [", which are affected by ";
                          _abil_type_vuln_core silencable antimagicable]).

Definition _booktype_header (type : mon_spell_slot_flag) (pronoun_plural : bool)
  : option string :=
  match _ability_type_vulnerabilities type with
  | None => None
  | Some vulnerabilities =>
      if type =? MON_SPELL_WIZARD E then
        Some (make_stringf [ c_str (conjugate_verb M "have" pronoun_plural);
                             " mastered "; "the following spells";
                             c_str vulnerabilities; ":" ])
      else
        let descriptor := _ability_type_descriptor E type in
        Some (make_stringf [ c_str (conjugate_verb M "possess" pronoun_plural);
                             " the following "; c_str descriptor;
                             " abilities"; c_str vulnerabilities; ":" ])
  end.

(** One round of the loop over [book_slots]; the state is
    [output_book.spells] and [mons_abjure]. *)
Definition monster_book_slot (st : list spell_type * bool)
  (slot : mon_spell_slot) : option (list spell_type * bool) :=
  let '(book_spells, mons_abjure) := st in
  let spell := slot_spell slot in
  if negb (spell_is_soh_breath M spell) then
    let book_spells := book_spells ++ [spell] in
    let mons_abjure :=
      if negb (Z.land (get_spell_flags E spell) (spflag_mons_abjure M) =? 0)
      then true else mons_abjure in
    Some (book_spells, mons_abjure)
  else
    match soh_breath_spells M spell with
    | None => None
    | Some breaths =>
        Some (fold_left (fun l breath => l ++ [breath]) breaths book_spells,
              mons_abjure)
    end.

(** A loop whose body can fail an assertion. *)
Fixpoint ofold {A S : Type} (body : S -> A -> option S) (l : list A) (st : S)
  : option S :=
  match l with
  | [] => Some st
  | x :: t =>
      match body st x with
      | Some st' => ofold body t st'
      | None => None
      end
  end.

Definition _monster_spellbooks (mi : monster_info) (type : mon_spell_slot_flag)
  (all_books : spellset) : option spellset :=
  let book_slots := get_unique_spells M mi type in
  match book_slots with
  | [] => Some all_books
  | _ :: _ =>
      match _booktype_header type (mi_pronoun_plurality M mi) with
      | None => None
      | Some header =>
          let output_label :=
            EmptyString
            +:+ (str1 newline
                 +:+ uppercase_first M (mi_pronoun_subjective M mi)
                 +:+ " " +:+ header) in
          let mons_abjure := false in
          match ofold monster_book_slot book_slots ([], mons_abjure) with
          | None => None
          | Some (book_spells, mons_abjure) =>
              let book_spells :=
                if mons_abjure then book_spells ++ [SPELL_ABJURATION M]
                else book_spells in
              Some (all_books
                    ++ [ {| label := output_label; spells := book_spells |} ])
          end
      end
  end.

Definition book_flags : list mon_spell_slot_flag :=
  [ MON_SPELL_NATURAL E; MON_SPELL_VOCAL E; MON_SPELL_MAGICAL E;
    MON_SPELL_PRIEST E; MON_SPELL_WIZARD E ].

Definition monster_spellset (mi : monster_info) : option spellset :=
  if negb (mi_has_spells M mi) then Some []
  else
    match ofold (fun books book_flag => _monster_spellbooks mi book_flag books)
                book_flags [] with
    | None => None
    | Some books =>
        if Nat.eqb (List.length books) 0 then None else Some books
    end.

End MonsterBooks.

(** *** Notions used to state the properties *)

(** All spells of a spellset: the books in order, each book's spells in
    order. *)
Definition flatten (spells_ : spellset) : list spell_type :=
  List.concat (List.map spells spells_).

(** The position of the first occurrence of [x] in [l] (the length of
    [l] when there is none). *)
Fixpoint first_index (x : spell_type) (l : list spell_type) : nat :=
  match l with
  | [] => O
  | y :: t => if decide (y = x) then O else S (first_index x t)
  end.

(** A list without its repetitions: of each element the first occurrence
    stays. *)
Fixpoint first_occurrences (l : list spell_type) : list spell_type :=
  match l with
  | [] => []
  | x :: t => x :: filter (fun y => y <> x) (first_occurrences t)
  end.

(** The [k]-th character counted from ['a'], in [char] arithmetic. *)
Definition letter_at (k : nat) : Z := wrap_char (char_a + Z.of_nat k).

(** The content of a [char] after [n] increments. *)
Fixpoint next_char (c : Z) (n : nat) : Z :=
  match n with
  | O => c
  | S n' => next_char (wrap_char (c + 1)) n'
  end.

(** [n] consecutive characters from [c] on. *)
Fixpoint letters_from (c : Z) (n : nat) : list Z :=
  match n with
  | O => []
  | S n' => c :: letters_from (wrap_char (c + 1)) n'
  end.

(** The elements at the positions 0, 2, 4, ... of a list. *)
Fixpoint every_other {A : Type} (l : list A) : list A :=
  match l with
  | [] => []
  | [x] => [x]
  | x :: _ :: t => x :: every_other t
  end.

Definition evens {A : Type} (l : list A) : list A := every_other l.
Definition odds {A : Type} (l : list A) : list A := every_other (tail l).

(** In double-column order, the position in the deduplicated list of
    [n] spells whose spell comes [k]-th: the even positions first, then
    the odd ones. *)
Definition column_major (n k : nat) : nat :=
  let half := ((n + 1) / 2)%nat in
  if (k <? half)%nat then (2 * k)%nat else (2 * (k - half) + 1)%nat.

Definition no_newline (s : string) : Prop := newline ∉ chars s.

(** The texts that a description got through [parse_string], in order. *)
Fixpoint parsed_lines (description : formatted_string) : list string :=
  match description with
  | [] => []
  | fs_parse_string s :: t => s :: parsed_lines t
  | _ :: t => parsed_lines t
  end.

(** The values written under the name ["letter"], in order. *)
Fixpoint json_letters (out : list json_op) : list string :=
  match out with
  | [] => []
  | json_write_string name value :: t =>
      if String.eqb name "letter" then value :: json_letters t
      else json_letters t
  | _ :: t => json_letters t
  end.

(** The damage text of a spell as a function of the spell and the hit
    dice alone: what [_effect_string] computes for a spell that is
    neither checked against willpower nor Conjure Living Spells. *)
Definition damage_text (E : engine) (spell : spell_type) (hd : Z) : string :=
  if hd =? 0 then EmptyString
  else if spell =? SPELL_SMITING E then "7-17"
  else
    let dam := _spell_damage E spell hd in
    if (num dam =? 0) || (size dam =? 0) then EmptyString
    else
      let mult :=
        if spell =? SPELL_MARSHLIGHT E then "2x"
        else if spell =? SPELL_CONJURE_BALL_LIGHTNING E then "3x"
        else EmptyString in
      make_stringf ["("; c_str mult; dec (num dam); "d"; dec (size dam); ")"].

(** The range text of a spell for a monster as a function of the spell,
    the hit dice and one bit, whether the player is within range. *)
Definition range_text (E : engine) (spell : spell_type) (hd : Z)
  (in_range : bool) : string :=
  let range := spell_range E spell (mons_power_for_hd E spell hd) false in
  if (0 <? range)
     && negb (testbits (get_spell_flags E spell) (spflag_selfench E))
  then
    let range_col := if in_range then "lightred" else "lightgray" in
    make_stringf ["(<"; range_col; ">"; dec range; "</"; range_col; ">)"]
  else EmptyString.

(** Whether the player is within [range] of the monster, as
    [_range_string] tests it. *)
Definition player_in_range (E : engine) (G : game_state) (mon : monster_info)
  (range : Z) : bool :=
  need_save G && in_bounds E (mi_pos mon)
  && (grid_distance E (you_pos G) (mi_pos mon) <=? range).

(** The slot lists of a monster, in the order of [book_flags], the
    empty ones left out. *)
Definition slot_lists (E : engine) (M : monster_engine) (mi : monster_info)
  : list (list mon_spell_slot) :=
  filter (fun slots => slots <> [])
         (List.map (get_unique_spells M mi) (book_flags E)).

(** The spells that a slot contributes to a book: the breaths in the
    place of a breath spell. *)
Definition slot_spells (M : monster_engine) (slot : mon_spell_slot)
  : list spell_type :=
  if spell_is_soh_breath M (slot_spell slot)
  then default [] (soh_breath_spells M (slot_spell slot))
  else [slot_spell slot].

(** Whether a slot holds an ordinary spell that lets the monster cast
    Abjuration. *)
Definition slot_abjures (E : engine) (M : monster_engine) (slot : mon_spell_slot)
  : bool :=
  negb (spell_is_soh_breath M (slot_spell slot))
  && negb (Z.land (get_spell_flags E (slot_spell slot))
                  (spflag_mons_abjure M) =? 0).

(** The spells of the book made of a list of slots. *)
Definition slots_book (E : engine) (M : monster_engine)
  (slots : list mon_spell_slot) : list spell_type :=
  List.concat (List.map (slot_spells M) slots)
  ++ (if existsb (slot_abjures E M) slots then [SPELL_ABJURATION M] else []).

(** Texts joined with a separator. *)
Fixpoint join_with (sep : string) (l : list string) : string :=
  match l with
  | [] => EmptyString
  | [s] => s
  | s :: t => s +:+ sep +:+ join_with sep t
  end.

(** The school names of a spell, in the order of the engine's range of
    schools. *)
Definition school_names (E : engine) (spell : spell_type) : list string :=
  List.map (fun school => c_str (spelltype_long_name E school))
           (List.filter (spell_typematch E spell) (spschools_range E)).


(** Whether the calls on the JSON writer nest properly: [stack] holds the
    objects ([true]) and arrays ([false]) that are open, the innermost
    first; the result is the stack after the calls, or [None] when a call
    closes what is not open. *)
Fixpoint json_nesting (ops : list json_op) (stack : list bool)
  : option (list bool) :=
  match ops with
  | [] => Some stack
  | json_open_object :: t => json_nesting t (true :: stack)
  | json_open_array _ :: t => json_nesting t (false :: stack)
  | json_close_object :: t =>
      match stack with
      | true :: stack' => json_nesting t stack'
      | _ => None
      end
  | json_close_array :: t =>
      match stack with
      | false :: stack' => json_nesting t stack'
      | _ => None
      end
  | _ :: t => json_nesting t stack
  end.

(** Whether the web renderer gets through a spell that has no monster:
    the spell is checked against willpower, or its effect colour is a
    terminal colour. *)
Definition web_safe (E : engine) (spell : spell_type) : bool :=
  testbits (get_spell_flags E spell) (spflag_WL_check E)
  || (_spell_colour E spell <? NUM_TERM_COLOURS E).

(** The label of the book that [_monster_spellbooks] makes for a
    monster under a header. *)
Definition monster_book_label (M : monster_engine) (mi : monster_info)
  (header : string) : string :=
  str1 newline +:+ uppercase_first M (mi_pronoun_subjective M mi)
  +:+ " " +:+ header.

(** The engine has the breaths of every breath spell among the slots. *)
Definition breaths_known (M : monster_engine) (slots : list mon_spell_slot)
  : Prop :=
  forall slot, slot ∈ slots ->
    spell_is_soh_breath M (slot_spell slot) = true ->
    soh_breath_spells M (slot_spell slot) <> None.

(** *** A small engine to run the code on

    The engine proper is not part of the sources at hand.  The values
    below follow its conventions (the sixteen terminal colours, element
    colours above them, Chebyshev distance on the grid) on a universe of a
    few spells; they serve to evaluate the code at concrete inputs. *)

Module Sample.

Definition spell_magic_dart : spell_type := 1.
Definition spell_freeze : spell_type := 2.
Definition spell_fire_bolt : spell_type := 3.
Definition spell_blink : spell_type := 4.
Definition spell_confuse : spell_type := 5.

Definition zap_magic_dart : Z := 0.
Definition zap_fire_bolt : Z := 1.
Definition num_zaps : Z := 2.

Definition etc_fire : colour_t := 32.

Definition school_conjuration : Z := 1.
Definition school_hexes : Z := 2.
Definition school_fire : Z := 4.
Definition school_ice : Z := 8.
Definition school_translocation : Z := 16.

Definition schools_of (spell : spell_type) : Z :=
  if spell =? spell_magic_dart then school_conjuration
  else if spell =? spell_freeze then school_ice
  else if spell =? spell_fire_bolt then Z.lor school_conjuration school_fire
  else if spell =? spell_blink then school_translocation
  else if spell =? spell_confuse then school_hexes
  else 0.

Definition school_name (school : Z) : string :=
  if school =? school_conjuration then "Conjuration"
  else if school =? school_hexes then "Hexes"
  else if school =? school_fire then "Fire"
  else if school =? school_ice then "Ice"
  else if school =? school_translocation then "Translocation"
  else "Bug".

Definition title_of (spell : spell_type) : string :=
  if spell =? spell_magic_dart then "Magic Dart"
  else if spell =? spell_freeze then "Freeze"
  else if spell =? spell_fire_bolt then "Bolt of Fire"
  else if spell =? spell_blink then "Blink"
  else if spell =? spell_confuse then "Confuse"
  else "a buggy spell".

Definition colour_name (col : colour_t) : string :=
  if col =? 0 then "black"
  else if col =? 4 then "red"
  else if col =? 7 then "lightgrey"
  else if col =? 8 then "darkgrey"
  else if col =? 9 then "lightblue"
  else if col =? 12 then "lightred"
  else if col =? 13 then "lightmagenta"
  else if col =? 14 then "yellow"
  else if col =? 15 then "white"
  else "lightgrey".

Fixpoint pad (n : nat) (s : string) : string :=
  match n with
  | O => EmptyString
  | S n' =>
      match s with
      | EmptyString => String space (pad n' EmptyString)
      | String c t => String c (pad n' t)
      end
  end.

(** Modelled from the spec: the engine's [comma_separated_line] is not
    part of the sources at hand; the spec speaks of a comma-separated
    line, so the entries are joined with a comma and a blank. *)
Fixpoint comma_line (l : list string) : string :=
  match l with
  | [] => EmptyString
  | [s] => s
  | s :: t => s +:+ ", " +:+ comma_line t
  end.

Definition the_engine : engine := {|
  SPELL_FREEZE := spell_freeze;
  SPELL_WATERSTRIKE := 101;
  SPELL_IOOD := 102;
  SPELL_GLACIATE := 103;
  SPELL_CONJURE_BALL_LIGHTNING := 104;
  SPELL_SEARING_BREATH := 105;
  SPELL_CONJURE_LIVING_SPELLS := 106;
  SPELL_SMITING := 107;
  SPELL_MARSHLIGHT := 108;
  SPELL_LEHUDIBS_CRYSTAL_SPEAR := 109;
  MONS_XTAHUA := 50;
  ATT_FRIENDLY := 4;
  NUM_ZAPS := num_zaps;
  INFINITE_DISTANCE := 30000;
  OBJ_RODS := 12;
  TAG_MAJOR_VERSION := 34;
  DEBUG_DIAGNOSTICS := false;
  MON_SPELL_NATURAL := 4;
  MON_SPELL_MAGICAL := 8;
  MON_SPELL_PRIEST := 32;
  MON_SPELL_VOCAL := 128;
  MON_SPELL_WIZARD := 16;
  BLACK := 0;
  DARKGRAY := 8;
  WHITE := 15;
  LIGHTBLUE := 9;
  LIGHTMAGENTA := 13;
  LIGHTGREY := 7;
  NUM_TERM_COLOURS := 16;
  COL_UNKNOWN := 7;
  COL_MEMORIZED := 7;
  COL_UNMEMORIZED := 9;
  COL_USELESS := 8;
  COL_FORBIDDEN := 12;
  spflag_selfench := 64;
  spflag_WL_check := 1024;
  get_spell_flags := fun spell =>
    if spell =? spell_blink then 64
    else if spell =? spell_confuse then 1024 else 0;
  mons_power_for_hd := fun _ hd => 12 * hd;
  spell_range := fun spell _ _ =>
    if spell =? spell_freeze then 1
    else if spell =? spell_blink then (-1) else 5;
  in_bounds := fun p =>
    (0 <? fst p) && (fst p <? 79) && (0 <? snd p) && (snd p <? 69);
  grid_distance := fun p q =>
    Z.max (Z.abs (fst p - fst q)) (Z.abs (snd p - snd q));
  freeze_damage := fun pow => {| num := 1; size := 3 + pow * 3 / 5 |};
  waterstrike_damage := fun hd => {| num := 3; size := 7 + hd |};
  iood_damage := fun pow _ _ => {| num := 9; size := pow / 4 |};
  glaciate_damage := fun pow _ => {| num := 10; size := (54 + 3 * pow / 2) / 3 |};
  ball_lightning_damage := fun hd => {| num := 3; size := 5 + hd * 4 / 3 |};
  mons_ball_lightning_hd := fun pow _ => pow / 20;
  spell_to_zap := fun spell =>
    if spell =? spell_magic_dart then zap_magic_dart
    else if spell =? spell_fire_bolt then zap_fire_bolt
    else num_zaps;
  zap_damage := fun zap pow _ _ =>
    if zap =? zap_magic_dart then {| num := 3; size := 4 + pow / 100 |}
    else {| num := 3; size := 8 + pow / 11 |};
  zap_colour := fun zap => if zap =? zap_fire_bolt then etc_fire else 13;
  colour_to_str := colour_name;
  mons_spell_is_spell := fun _ => true;
  living_spell_type_for := fun _ => spell_magic_dart;
  living_spell_count := fun _ _ => 2;
  spell_title := title_of;
  spell_difficulty := fun spell =>
    if spell =? spell_fire_bolt then 6
    else if spell =? spell_blink then 2
    else if spell =? spell_confuse then 3 else 1;
  spell_levels_required := fun spell =>
    if spell =? spell_fire_bolt then 6
    else if spell =? spell_blink then 2
    else if spell =? spell_confuse then 3 else 1;
  god_hates_spell := fun _ _ => false;
  chop_string := fun s n => pad (Z.to_nat n) s;
  spschools_range :=
    [school_conjuration; school_hexes; school_fire; school_ice;
     school_translocation];
  spell_typematch := fun spell school =>
    negb (Z.land (schools_of spell) school =? 0);
  spelltype_long_name := school_name;
  item_has_spells := fun _ => true;
  spells_in_book := fun item =>
    if item_serial item =? 1 then [spell_magic_dart; spell_fire_bolt; spell_blink]
    else [spell_freeze];
  comma_separated_line := comma_line;
  tileidx_spell := fun spell => 1000 + spell
|}.

(** The player stands at [pos]; a game is in progress. *)
Definition player_at (pos : coord_def) : game_state := {|
  need_save := true;
  you_pos := pos;
  you_has_spell := fun spell => spell =? spell_magic_dart;
  you_can_memorise := fun _ => true;
  you_experience_level := 9;
  player_spell_levels := 4;
  you_religion := 0;
  you_immune_to_hex := fun _ => false;
  you_spell_library := fun spell => spell =? spell_magic_dart;
  hex_chance := fun _ _ => 42;
  spell_highlight_by_utility := fun _ col => col;
  element_colour := fun col _ _ i => if Z.even i then 4 else 14
|}.

Definition the_book : item_def := {| base_type := 10; item_serial := 1 |}.

Definition the_monster : monster_info := {|
  mi_type := 7;
  mi_pos := (10, 10);
  mi_hd := 6;
  mi_spell_hd := 6;
  mi_attitude := 0
|}.

(** A spellset of one book that holds the [n] spells [0 .. n - 1]. *)
Definition numbered_book (n : nat) : spellset :=
  [ {| label := "Book"; spells := List.map Z.of_nat (List.seq 0 n) |} ].

Definition the_monster_engine : monster_engine := {|
  SPELL_ABJURATION := 110;
  spflag_mons_abjure := 2048;
  mi_has_spells := fun mi => negb (mi_type mi =? 0);
  get_unique_spells := fun mi type =>
    if (mi_type mi =? 7) && (type =? 16) then
      [ {| slot_spell := spell_magic_dart; slot_freq := 20; slot_flags := 16 |};
        {| slot_spell := 111; slot_freq := 20; slot_flags := 16 |};
        {| slot_spell := spell_blink; slot_freq := 10; slot_flags := 16 |} ]
    else if (mi_type mi =? 7) && (type =? 4) then
      [ {| slot_spell := 112; slot_freq := 30; slot_flags := 4 |} ]
    else [];
  spell_is_soh_breath := fun spell => spell =? 112;
  soh_breath_spells := fun spell =>
    if spell =? 112 then Some [spell_fire_bolt; spell_freeze] else None;
  mi_pronoun_subjective := fun _ => "he";
  mi_pronoun_plurality := fun _ => false;
  uppercase_first := fun s =>
    match s with
    | EmptyString => EmptyString
    | String c t =>
        String (if ((97 <=? N_of_ascii c) && (N_of_ascii c <=? 122))%N
                then ascii_of_N (N_of_ascii c - 32) else c) t
    end;
  conjugate_verb := fun verb plural =>
    if plural then verb
    else if String.eqb verb "have" then "has" else verb +:+ "es"
|}.

(** The sample engine with flags for the spell 111, which lets its
    caster abjure. *)
Definition the_summoner_engine : engine := {|
  SPELL_FREEZE := SPELL_FREEZE the_engine;
  SPELL_WATERSTRIKE := SPELL_WATERSTRIKE the_engine;
  SPELL_IOOD := SPELL_IOOD the_engine;
  SPELL_GLACIATE := SPELL_GLACIATE the_engine;
  SPELL_CONJURE_BALL_LIGHTNING := SPELL_CONJURE_BALL_LIGHTNING the_engine;
  SPELL_SEARING_BREATH := SPELL_SEARING_BREATH the_engine;
  SPELL_CONJURE_LIVING_SPELLS := SPELL_CONJURE_LIVING_SPELLS the_engine;
  SPELL_SMITING := SPELL_SMITING the_engine;
  SPELL_MARSHLIGHT := SPELL_MARSHLIGHT the_engine;
  SPELL_LEHUDIBS_CRYSTAL_SPEAR := SPELL_LEHUDIBS_CRYSTAL_SPEAR the_engine;
  MONS_XTAHUA := MONS_XTAHUA the_engine;
  ATT_FRIENDLY := ATT_FRIENDLY the_engine;
  NUM_ZAPS := NUM_ZAPS the_engine;
  INFINITE_DISTANCE := INFINITE_DISTANCE the_engine;
  OBJ_RODS := OBJ_RODS the_engine;
  TAG_MAJOR_VERSION := TAG_MAJOR_VERSION the_engine;
  DEBUG_DIAGNOSTICS := DEBUG_DIAGNOSTICS the_engine;
  MON_SPELL_NATURAL := MON_SPELL_NATURAL the_engine;
  MON_SPELL_MAGICAL := MON_SPELL_MAGICAL the_engine;
  MON_SPELL_PRIEST := MON_SPELL_PRIEST the_engine;
  MON_SPELL_VOCAL := MON_SPELL_VOCAL the_engine;
  MON_SPELL_WIZARD := MON_SPELL_WIZARD the_engine;
  BLACK := BLACK the_engine;
  DARKGRAY := DARKGRAY the_engine;
  WHITE := WHITE the_engine;
  LIGHTBLUE := LIGHTBLUE the_engine;
  LIGHTMAGENTA := LIGHTMAGENTA the_engine;
  LIGHTGREY := LIGHTGREY the_engine;
  NUM_TERM_COLOURS := NUM_TERM_COLOURS the_engine;
  COL_UNKNOWN := COL_UNKNOWN the_engine;
  COL_MEMORIZED := COL_MEMORIZED the_engine;
  COL_UNMEMORIZED := COL_UNMEMORIZED the_engine;
  COL_USELESS := COL_USELESS the_engine;
  COL_FORBIDDEN := COL_FORBIDDEN the_engine;
  spflag_selfench := spflag_selfench the_engine;
  spflag_WL_check := spflag_WL_check the_engine;
  get_spell_flags := fun spell =>
    if spell =? 111 then 2048 else get_spell_flags the_engine spell;
  mons_power_for_hd := mons_power_for_hd the_engine;
  spell_range := spell_range the_engine;
  in_bounds := in_bounds the_engine;
  grid_distance := grid_distance the_engine;
  freeze_damage := freeze_damage the_engine;
  waterstrike_damage := waterstrike_damage the_engine;
  iood_damage := iood_damage the_engine;
  glaciate_damage := glaciate_damage the_engine;
  ball_lightning_damage := ball_lightning_damage the_engine;
  mons_ball_lightning_hd := mons_ball_lightning_hd the_engine;
  spell_to_zap := spell_to_zap the_engine;
  zap_damage := zap_damage the_engine;
  zap_colour := zap_colour the_engine;
  colour_to_str := colour_to_str the_engine;
  mons_spell_is_spell := mons_spell_is_spell the_engine;
  living_spell_type_for := living_spell_type_for the_engine;
  living_spell_count := living_spell_count the_engine;
  spell_title := spell_title the_engine;
  spell_difficulty := spell_difficulty the_engine;
  spell_levels_required := spell_levels_required the_engine;
  god_hates_spell := god_hates_spell the_engine;
  chop_string := chop_string the_engine;
  spschools_range := spschools_range the_engine;
  spell_typematch := spell_typematch the_engine;
  spelltype_long_name := spelltype_long_name the_engine;
  item_has_spells := item_has_spells the_engine;
  spells_in_book := spells_in_book the_engine;
  comma_separated_line := comma_separated_line the_engine;
  tileidx_spell := tileidx_spell the_engine
|}.

End Sample.

End DescribeSpells.

(** * Properties of the shop script *)

Module AlphashopsProofs.

Import Alphashops.

Lemma random2_range (draw max : Z) :
  1 < max -> 0 <= random2 draw max < max.
Proof.
  intros Hmax. unfold random2.
  destruct (Z.leb_spec max 1) as [Hle | _]; [lia |].
  apply Z.mod_pos_bound. lia.
Qed.

Lemma random2_small (draw max : Z) : max <= 1 -> random2 draw max = 0.
Proof.
  intros Hmax. unfold random2.
  destruct (Z.leb_spec max 1) as [_ | Hlt]; [reflexivity | lia].
Qed.

(** Every number of the range is the outcome of some draw. *)
Lemma random2_onto (max r : Z) : 0 <= r < max -> 1 < max -> random2 r max = r.
Proof.
  intros Hr Hmax. unfold random2.
  destruct (Z.leb_spec max 1) as [Hle | _]; [lia |].
  apply Z.mod_small. exact Hr.
Qed.

(** The letters that survive the loop of [pickletter]. *)
Lemma pickletter_options_eq : pickletter_options = "ABCDEFGHILMNPRSTW".
Proof. vm_compute. reflexivity. Qed.

Lemma gsub_char_removes (s : string) (c : ascii) :
  c ∉ chars (gsub_char s c EmptyString).
Proof.
  induction s as [| x t IH]; simpl.
  - apply not_elem_of_nil.
  - destruct (Ascii.eqb_spec x c) as [-> | Hne]; simpl.
    + exact IH.
    + intros Hin. apply elem_of_cons in Hin as [Heq | Hin].
      * congruence.
      * exact (IH Hin).
Qed.

Lemma capital_not_space (c : ascii) : is_capital c = true -> c <> space.
Proof.
  intros Hc ->. vm_compute in Hc. discriminate.
Qed.

Lemma prefix_head (c : ascii) (t : string) :
  String.prefix (str1 c) (String c t) = true.
Proof.
  unfold str1. simpl.
  destruct (ascii_dec c c) as [_ | Hne]; [by destruct t | congruence].
Qed.

(** The size of the inventory when the list has the five items that the
    script's comments promise. *)
Lemma shopcount_bounds (letter : string) (draw : Z) :
  5 <= table_len (shopcontents letter) ->
  5 <= shopcount letter draw <= Z.min 15 (table_len (shopcontents letter)).
Proof.
  intros Hfive. unfold shopcount. cbv zeta.
  set (itemcount := table_len (shopcontents letter)) in *. clearbody itemcount.
  destruct (Z.le_gt_cases (Z.min 15 itemcount - 4) 1) as [Hsmall | Hbig].
  - rewrite (random2_small _ _ Hsmall). lia.
  - pose proof (random2_range draw (Z.min 15 itemcount - 4) Hbig). lia.
Qed.

(** What the loop of [pickletter] does keep: letters of four items and
    more. *)
Lemma pickletter_four (draw : Z) :
  4 <= table_len (shopcontents (pickletter draw)).
Proof.
  unfold pickletter. rewrite pickletter_options_eq.
  change (string_len "ABCDEFGHILMNPRSTW") with 17.
  pose proof (random2_range draw 17 ltac:(lia)) as Hr.
  set (r := random2 draw 17) in *.
  assert (Hcases : r = 0 \/ r = 1 \/ r = 2 \/ r = 3 \/ r = 4 \/ r = 5 \/ r = 6
                   \/ r = 7 \/ r = 8 \/ r = 9 \/ r = 10 \/ r = 11 \/ r = 12
                   \/ r = 13 \/ r = 14 \/ r = 15 \/ r = 16) by lia.
  repeat (destruct Hcases as [-> | Hcases]; [vm_compute; discriminate |]).
  rewrite Hcases. vm_compute. discriminate.
Qed.

(** C1 does not hold of the script: with the draw 11, [pickletter]
    returns the letter N, whose item list has four entries, fewer than
    five. *)
Theorem pickletter_returns_short_list :
  pickletter 11 = "N"
  /\ table_len (shopcontents (pickletter 11)) = 4
  /\ (table_len (shopcontents (pickletter 11)) <? 5) = true.
Proof. vm_compute. repeat split. Qed.

(** C2 does not hold of the script: when the letter draw is 11 the
    prelude works on the letter N and places four items, whatever the draw
    for the count is; four is below the promised minimum of five. *)
Theorem prelude_places_four (draw_count : Z) :
  prelude 11 draw_count = ("N", 4) /\ ~ (5 <= snd (prelude 11 draw_count)).
Proof.
  assert (Hp : prelude 11 draw_count = ("N", 4)).
  { unfold prelude. change (pickletter 11) with "N".
    unfold shopcount. change (table_len (shopcontents "N")) with 4.
    rewrite random2_small by (simpl; lia). reflexivity. }
  rewrite Hp. split; [reflexivity | simpl; lia].
Qed.

Lemma gsub_blank_head (c : ascii) (t : string) :
  c <> space ->
  string_gsub (String c t) " " EmptyString
  = String c (gsub_char t space EmptyString).
Proof.
  intros Hne. unfold string_gsub. simpl.
  destruct (Ascii.eqb_spec c " ") as [Hsp | _]; [| reflexivity].
  exfalso. exact (Hne Hsp).
Qed.

Lemma crunched_name (c : ascii) (t : string) :
  is_capital c = true ->
  String.prefix (str1 c) (string_gsub (String.append (str1 c) t) " " EmptyString)
  = true
  /\ space ∉ chars (string_gsub (String.append (str1 c) t) " " EmptyString).
Proof.
  intros Hc. pose proof (capital_not_space c Hc) as Hne.
  change (String.append (str1 c) t) with (String c t).
  rewrite (gsub_blank_head c t Hne). split; [apply prefix_head |].
  intros Hin. apply elem_of_cons in Hin as [Heq | Hin].
  - symmetry in Heq. exact (Hne Heq).
  - exact (gsub_char_removes _ _ Hin).
Qed.

(** C8: for a capital letter [c], whatever the one-in-twenty roll and
    the generated name are, the owner's name starts with [c] and holds no
    blank. *)
Theorem ownername_is_one_token (c : ascii) (one_in_20 : bool)
  (made_name : string) :
  is_capital c = true ->
  String.prefix (str1 c) (ownername (str1 c) one_in_20 made_name) = true
  /\ space ∉ chars (ownername (str1 c) one_in_20 made_name).
Proof.
  intros Hc. unfold ownername.
  destruct (String.eqb_spec (str1 c) "N") as [HN | HN]; simpl andb.
  - destruct one_in_20.
    + injection HN as ->. split; [reflexivity |].
      vm_compute. intros Hin.
      repeat (apply elem_of_cons in Hin as [Hin | Hin]; [discriminate |]).
      exact (not_elem_of_nil _ Hin).
    + apply crunched_name. exact Hc.
  - apply crunched_name. exact Hc.
Qed.

Lemma ownername_is_one_token_witness :
  is_capital "N" = true
  /\ String.prefix "N" (ownername "N" false "Foo bar Baz") = true
  /\ space ∉ chars (ownername "N" false "Foo bar Baz").
Proof.
  split; [reflexivity |].
  apply (ownername_is_one_token "N" false "Foo bar Baz"). reflexivity.
Defined.

(** ** Further properties of the script *)

Ltac each_ascii c :=
  destruct c as [[] [] [] [] [] [] [] []].

Lemma pickletter_capital (draw : Z) :
  exists c, pickletter draw = str1 c /\ is_capital c = true.
Proof.
  unfold pickletter. rewrite pickletter_options_eq.
  change (string_len "ABCDEFGHILMNPRSTW") with 17.
  pose proof (random2_range draw 17 ltac:(lia)) as Hr.
  set (r := random2 draw 17) in *.
  assert (Hcases : r = 0 \/ r = 1 \/ r = 2 \/ r = 3 \/ r = 4 \/ r = 5
                   \/ r = 6 \/ r = 7 \/ r = 8 \/ r = 9 \/ r = 10 \/ r = 11
                   \/ r = 12 \/ r = 13 \/ r = 14 \/ r = 15 \/ r = 16) by lia.
  repeat (destruct Hcases as [-> | Hcases];
          [eexists; split; [vm_compute; reflexivity | reflexivity] |]).
  rewrite Hcases. eexists; split; [vm_compute; reflexivity | reflexivity].
Qed.

(** X1: whatever the draw, [pickletter] returns one capital letter; and a
    capital letter is returned for some draw exactly when its item list
    has four entries or more. *)
Theorem pickletter_range :
  (forall draw, exists c, pickletter draw = str1 c /\ is_capital c = true)
  /\ (forall c, is_capital c = true ->
        ((exists draw, pickletter draw = str1 c)
         <-> 4 <= table_len (shopcontents (str1 c)))).
Proof.
  split; [exact pickletter_capital |].
  intros c Hc. split.
  - intros [draw <-]. apply pickletter_four.
  - intros Hfour. exists (letter_position c pickletter_options).
    revert Hc Hfour. each_ascii c; vm_compute; intros Hc Hfour;
      (discriminate Hc || reflexivity || (exfalso; exact (Hfour eq_refl))).
Qed.

Lemma pickletter_range_witness :
  is_capital "N" = true /\ exists draw, pickletter draw = "N"%string.
Proof.
  split; [reflexivity |].
  apply (proj2 pickletter_range "N"%char); [reflexivity | vm_compute; discriminate].
Defined.

Lemma shopname_capital (c : ascii) :
  is_capital c = true ->
  exists rest, shopname (str1 c) = Some (" type:" +:+ str1 c +:+ rest).
Proof.
  each_ascii c; vm_compute; intros Hc;
    (discriminate Hc || (eexists; reflexivity)).
Qed.

(** X2: [shopname] knows exactly the capital letters.  For a capital
    letter the text starts with [" type:"] and a word that begins with
    the letter; for every other argument the result is [nil].  So the
    name of the letter that [pickletter] returns is never [nil]. *)
Theorem shopname_domain :
  (forall c, is_capital c = true ->
     exists rest, shopname (str1 c) = Some (" type:" +:+ str1 c +:+ rest))
  /\ (forall s, (forall c, is_capital c = true -> s <> str1 c) ->
        shopname s = None)
  /\ (forall draw, exists rest,
        shopname (pickletter draw)
        = Some (" type:" +:+ pickletter draw +:+ rest)).
Proof.
  split; [exact shopname_capital |]. split.
  - intros s Hs. unfold shopname.
    repeat match goal with
           | |- context [String.eqb s ?x] =>
               destruct (String.eqb_spec s x) as [Heq | _];
               [exfalso; eapply Hs; [| exact Heq]; reflexivity |]
           end.
    reflexivity.
  - intros draw.
    destruct (pickletter_capital draw) as (c & -> & Hc).
    by apply shopname_capital.
Qed.

Lemma shopname_domain_witness :
  is_capital "S" = true
  /\ (exists rest, shopname "S" = Some (" type:" +:+ "S" +:+ rest))
  /\ shopname "s" = None.
Proof.
  destruct shopname_domain as (Hcapital & Hother & _).
  split; [reflexivity |]. split.
  - apply (Hcapital "S"%char). reflexivity.
  - apply Hother. intros c Hc Heq. injection Heq as <-. vm_compute in Hc.
    discriminate.
Defined.

Lemma shopcount_general_bounds (letter : string) (draw : Z) :
  Z.min 5 (table_len (shopcontents letter)) <= shopcount letter draw
  <= Z.min 15 (table_len (shopcontents letter)).
Proof.
  unfold shopcount. cbv zeta.
  set (itemcount := table_len (shopcontents letter)). clearbody itemcount.
  destruct (Z.le_gt_cases (Z.min 15 itemcount - 4) 1) as [Hsmall | Hbig].
  - rewrite (random2_small _ _ Hsmall). lia.
  - pose proof (random2_range draw (Z.min 15 itemcount - 4) Hbig). lia.
Qed.

(** X3: for every letter and every draw, the number of items placed lies
    between min (5, itemcount) and min (15, itemcount); it never exceeds
    the number of items the letter has.  Every number of that range is
    placed for some draw. *)
Theorem shopcount_range (letter : string) :
  (forall draw,
     Z.min 5 (table_len (shopcontents letter)) <= shopcount letter draw
     <= Z.min 15 (table_len (shopcontents letter)))
  /\ (forall k,
        Z.min 5 (table_len (shopcontents letter)) <= k
        <= Z.min 15 (table_len (shopcontents letter)) ->
        exists draw, shopcount letter draw = k).
Proof.
  split; [apply shopcount_general_bounds |].
  intros k Hk. exists (k - 5). unfold shopcount. cbv zeta.
  set (itemcount := table_len (shopcontents letter)) in *. clearbody itemcount.
  destruct (Z.le_gt_cases (Z.min 15 itemcount - 4) 1) as [Hsmall | Hbig].
  - rewrite (random2_small _ _ Hsmall). lia.
  - rewrite random2_onto by lia. lia.
Qed.

Lemma shopcount_range_witness :
  Z.min 5 (table_len (shopcontents "L")) <= 7
  <= Z.min 15 (table_len (shopcontents "L"))
  /\ exists draw, shopcount "L" draw = 7.
Proof.
  split; [vm_compute; split; discriminate |].
  apply (proj2 (shopcount_range "L") 7). vm_compute. split; discriminate.
Defined.

(** X4: whatever the two draws, the prelude places at least 4 and at
    most 15 items, and no more than the item list of its letter has. *)
Theorem prelude_count_range (draw_letter draw_count : Z) :
  4 <= snd (prelude draw_letter draw_count) <= 15
  /\ snd (prelude draw_letter draw_count)
     <= table_len (shopcontents (fst (prelude draw_letter draw_count))).
Proof.
  unfold prelude. simpl.
  pose proof (pickletter_four draw_letter) as Hfour.
  pose proof (shopcount_general_bounds (pickletter draw_letter) draw_count).
  lia.
Qed.

Lemma lower_char_not_capital (x : ascii) : is_capital (lower_char x) = false.
Proof. each_ascii x; reflexivity. Qed.

Lemma string_lower_chars (s : string) (x : ascii) :
  x ∈ chars (string_lower s) -> is_capital x = false.
Proof.
  induction s as [| c t IH]; simpl; intros Hin.
  - by apply not_elem_of_nil in Hin.
  - apply elem_of_cons in Hin as [-> | Hin]; [apply lower_char_not_capital | auto].
Qed.

Lemma substring_chars (s : string) (n m : nat) (x : ascii) :
  x ∈ chars (substring n m s) -> x ∈ chars s.
Proof.
  revert n m. induction s as [| c t IH]; intros n m Hin.
  - destruct n, m; simpl in Hin; by apply not_elem_of_nil in Hin.
  - destruct n as [| n].
    + destruct m as [| m]; simpl in Hin; [by apply not_elem_of_nil in Hin |].
      apply elem_of_cons in Hin as [-> | Hin]; [by left |].
      right. exact (IH _ _ Hin).
    + simpl in Hin. right. exact (IH _ _ Hin).
Qed.

Lemma string_sub_chars (s : string) (i j : Z) (x : ascii) :
  x ∈ chars (string_sub s i j) -> x ∈ chars s.
Proof.
  unfold string_sub. cbv zeta.
  destruct (_ <=? _); [apply substring_chars |].
  intros Hin. by apply not_elem_of_nil in Hin.
Qed.

Lemma gsub_char_chars (s : string) (c x : ascii) :
  x ∈ chars (gsub_char s c EmptyString) -> x ∈ chars s.
Proof.
  induction s as [| y t IH]; simpl; [done |].
  destruct (Ascii.eqb y c); simpl; rewrite ?elem_of_cons; naive_solver.
Qed.

(** X5: the owner's name of a capital letter is that letter followed by
    characters none of which is a capital letter. *)
Theorem ownername_lowercase_tail (c : ascii) (one_in_20 : bool)
  (made_name : string) :
  is_capital c = true ->
  exists tail,
    ownername (str1 c) one_in_20 made_name = String c tail
    /\ forall x, x ∈ chars tail -> is_capital x = false.
Proof.
  intros Hc. unfold ownername.
  assert (Hcrunch : exists tail,
    string_gsub (String.append (str1 c)
                   (string_sub_from (string_lower made_name) 2))
                " " EmptyString = String c tail
    /\ forall x, x ∈ chars tail -> is_capital x = false).
  { change (String.append (str1 c) ?t) with (String c t).
    rewrite (gsub_blank_head c _ (capital_not_space c Hc)).
    eexists. split; [reflexivity |]. intros x Hx.
    apply gsub_char_chars, string_sub_chars in Hx.
    exact (string_lower_chars _ _ Hx). }
  destruct (String.eqb_spec (str1 c) "N") as [HN | HN]; simpl andb;
    [| exact Hcrunch].
  destruct one_in_20; [| exact Hcrunch].
  injection HN as ->. eexists. split; [reflexivity |].
  simpl. intros x Hx.
  repeat (apply elem_of_cons in Hx as [-> | Hx]; [reflexivity |]).
  by apply not_elem_of_nil in Hx.
Qed.

Lemma ownername_lowercase_tail_witness :
  is_capital "D" = true
  /\ exists tail,
       ownername "D" false "Ab Cd" = String "D" tail
       /\ forall x, x ∈ chars tail -> is_capital x = false.
Proof.
  split; [reflexivity |].
  apply (ownername_lowercase_tail "D" false "Ab Cd"). reflexivity.
Defined.

Lemma first_token_stops (owner rest : string) :
  space ∉ chars owner ->
  first_token (owner +:+ String space rest) = owner.
Proof.
  induction owner as [| x t IH]; simpl; intros Hsp.
  - reflexivity.
  - apply not_elem_of_cons in Hsp as [Hne Hsp].
    destruct (Ascii.eqb_spec x space) as [Heq | _]; [congruence |].
    by rewrite IH.
Qed.

(** X6: for a capital letter the argument of [kfeat] is built without
    error, and the owner's name can be read back from it: the line is
    the text ["s = general shop name:"], the owner's name and a rest,
    and the first blank-delimited token of name and rest is the name. *)
Theorem kfeat_name_token (c : ascii) (one_in_20 : bool) (made_name : string)
  (count : Z) (inventory : string) :
  is_capital c = true ->
  exists rest,
    kfeat_line (str1 c) one_in_20 made_name count inventory
    = Some ("s = general shop name:"
            +:+ ownername (str1 c) one_in_20 made_name +:+ rest)
    /\ first_token (ownername (str1 c) one_in_20 made_name +:+ rest)
       = ownername (str1 c) one_in_20 made_name.
Proof.
  intros Hc. unfold kfeat_line. cbv zeta.
  destruct (shopname_capital c Hc) as [tail ->].
  eexists. split; [reflexivity |].
  change (" type:" +:+ str1 c +:+ tail)
    with (String space ("type:" +:+ str1 c +:+ tail)).
  simpl String.append at 2.
  apply first_token_stops.
  unfold ownername.
  destruct (String.eqb (str1 c) "N" && one_in_20).
  - simpl. intros Hin.
    repeat (apply elem_of_cons in Hin as [Hin | Hin]; [discriminate |]).
    by apply not_elem_of_nil in Hin.
  - apply crunched_name. exact Hc.
Qed.

Lemma kfeat_name_token_witness :
  is_capital "T" = true
  /\ exists rest,
       kfeat_line "T" false "Ab Cd" 7 "trident | throwing net"
       = Some ("s = general shop name:" +:+ ownername "T" false "Ab Cd" +:+ rest)
       /\ first_token (ownername "T" false "Ab Cd" +:+ rest)
          = ownername "T" false "Ab Cd".
Proof.
  split; [reflexivity |].
  apply (kfeat_name_token "T" false "Ab Cd" 7 "trident | throwing net").
  reflexivity.
Defined.

End AlphashopsProofs.

(** * Properties of the spell descriptions *)

Module DescribeSpellsProofs.

Import DescribeSpells.

(** ** Deduplication *)

Lemma insert_spells_set (l : list spell_type) (u : gset Z) :
  fold_left (fun u spell => {[ spell ]} ∪ u) l u = list_to_set l ∪ u.
Proof.
  revert u. induction l as [| x t IH]; intros u; simpl.
  - set_solver.
  - rewrite IH. set_solver.
Qed.

Lemma insert_books_set (spells_ : spellset) (u : gset Z) :
  fold_left insert_book spells_ u = list_to_set (flatten spells_) ∪ u.
Proof.
  revert u. induction spells_ as [| book rest IH]; intros u; simpl.
  - set_solver.
  - rewrite IH. unfold insert_book. rewrite insert_spells_set.
    unfold flatten. simpl. rewrite list_to_set_app_L. set_solver.
Qed.

Lemma fold_books_flatten {S : Type} (f : S -> spell_type -> S)
  (spells_ : spellset) (st : S) :
  fold_left (fun st book => fold_left f (spells book) st) spells_ st
  = fold_left f (flatten spells_) st.
Proof.
  revert st. induction spells_ as [| book rest IH]; intros st; simpl.
  - reflexivity.
  - rewrite IH. unfold flatten. simpl. by rewrite fold_left_app.
Qed.

Lemma first_occurrences_elem (l : list spell_type) (x : spell_type) :
  x ∈ first_occurrences l <-> x ∈ l.
Proof.
  induction l as [| a t IH]; simpl; [reflexivity |].
  rewrite !elem_of_cons, list_elem_of_filter, IH.
  destruct (decide (x = a)); naive_solver.
Qed.

Lemma first_occurrences_NoDup (l : list spell_type) :
  NoDup (first_occurrences l).
Proof.
  induction l as [| a t IH]; simpl; [constructor |].
  constructor.
  - rewrite list_elem_of_filter. naive_solver.
  - by apply NoDup_filter.
Qed.

(** The second pass emits the first occurrences of the spells that are
    still in the set. *)
Lemma erase_emit_fold (l : list spell_type) (u : gset Z)
  (out : list spell_type) :
  fold_left erase_emit l (u, out)
  = (u ∖ list_to_set l, out ++ filter (fun x => x ∈ u) (first_occurrences l)).
Proof.
  revert u out. induction l as [| a t IH]; intros u out; simpl.
  - rewrite app_nil_r. f_equal. set_solver.
  - destruct (decide (a ∈ u)) as [Hin | Hout].
    + rewrite IH. f_equal; [set_solver |].
      rewrite filter_cons_True by exact Hin.
      rewrite <- app_assoc. simpl. do 2 f_equal.
      rewrite list_filter_filter. apply list_filter_iff.
      intros x. set_solver.
    + rewrite IH. f_equal; [set_solver |].
      rewrite filter_cons_False by exact Hout. f_equal.
      rewrite list_filter_filter. apply list_filter_iff.
      intros x. set_solver.
Qed.

Lemma filter_all {A : Type} (P : A -> Prop) `{!forall x, Decision (P x)}
  (l : list A) :
  Forall P l -> filter P l = l.
Proof.
  induction 1 as [| x t Hx _ IH]; [reflexivity |].
  rewrite filter_cons_True by exact Hx. by rewrite IH.
Qed.

Lemma spellset_contents_eq (spells_ : spellset) :
  _spellset_contents spells_ = first_occurrences (flatten spells_).
Proof.
  unfold _spellset_contents. rewrite fold_books_flatten, erase_emit_fold.
  simpl. rewrite insert_books_set.
  apply filter_all. apply Forall_forall. intros x Hx.
  rewrite first_occurrences_elem in Hx. set_solver.
Qed.

Lemma first_index_cons_ne (a x : spell_type) (t : list spell_type) :
  x <> a -> first_index x (a :: t) = S (first_index x t).
Proof.
  intros Hne. simpl. destruct (decide (a = x)); [congruence | reflexivity].
Qed.

(** A sublist keeps the relative order of its elements. *)
Lemma sublist_lookup_order {A : Type} (l1 l2 : list A) (i j : nat) (x y : A) :
  sublist l1 l2 -> l1 !! i = Some x -> l1 !! j = Some y -> (i < j)%nat ->
  exists i' j', (i' < j')%nat /\ l2 !! i' = Some x /\ l2 !! j' = Some y.
Proof.
  intros Hsub. revert i j.
  induction Hsub as [| a l1 l2 Hsub IH | a l1 l2 Hsub IH]; intros i j Hi Hj Hlt.
  - discriminate.
  - destruct i as [| i].
    + destruct j as [| j]; [lia |]. simpl in Hi, Hj.
      assert (Hy : y ∈ l2).
      { eapply elem_of_sublist; [| exact Hsub].
        eapply list_elem_of_lookup_2. exact Hj. }
      apply list_elem_of_lookup_1 in Hy as [j' Hj'].
      exists O, (S j'). repeat split; [lia | exact Hi | exact Hj'].
    + destruct j as [| j]; [lia |]. simpl in Hi, Hj.
      destruct (IH i j Hi Hj ltac:(lia)) as (i' & j' & Hlt' & Hi' & Hj').
      exists (S i'), (S j'). repeat split; [lia | exact Hi' | exact Hj'].
  - destruct (IH i j Hi Hj Hlt) as (i' & j' & Hlt' & Hi' & Hj').
    exists (S i'), (S j'). repeat split; [lia | exact Hi' | exact Hj'].
Qed.

Lemma first_occurrences_order (l : list spell_type) (i j : nat)
  (x y : spell_type) :
  first_occurrences l !! i = Some x -> first_occurrences l !! j = Some y ->
  (i < j)%nat -> (first_index x l < first_index y l)%nat.
Proof.
  revert i j. induction l as [| a t IH]; intros i j Hi Hj Hlt; [discriminate |].
  simpl first_occurrences in Hi, Hj.
  destruct j as [| j]; [lia |]. simpl in Hj.
  assert (Hy : y <> a).
  { apply list_elem_of_lookup_2 in Hj. apply list_elem_of_filter in Hj. tauto. }
  rewrite (first_index_cons_ne a y t Hy).
  destruct i as [| i].
  - simpl in Hi. injection Hi as <-. simpl.
    destruct (decide (a = a)); [lia | congruence].
  - simpl in Hi.
    assert (Hx : x <> a).
    { apply list_elem_of_lookup_2 in Hi. apply list_elem_of_filter in Hi. tauto. }
    rewrite (first_index_cons_ne a x t Hx).
    destruct (sublist_lookup_order _ (first_occurrences t) i j x y
                (sublist_filter _ _) Hi Hj ltac:(lia))
      as (i' & j' & Hlt' & Hi' & Hj').
    pose proof (IH i' j' Hi' Hj' Hlt'). lia.
Qed.

(** C4: the list that [_spellset_contents] returns holds no spell twice,
    holds exactly the spells of the set, and lists them in the order of
    their first occurrences in the set (books in order, the spells of each
    book in order). *)
Theorem spellset_contents_first_occurrence (spells_ : spellset) :
  NoDup (_spellset_contents spells_)
  /\ (forall x, x ∈ _spellset_contents spells_ <-> x ∈ flatten spells_)
  /\ (forall i j x y,
        _spellset_contents spells_ !! i = Some x ->
        _spellset_contents spells_ !! j = Some y ->
        (i < j)%nat ->
        (first_index x (flatten spells_) < first_index y (flatten spells_))%nat).
Proof.
  rewrite spellset_contents_eq. split; [apply first_occurrences_NoDup |].
  split; [apply first_occurrences_elem |].
  intros i j x y. apply first_occurrences_order.
Qed.

Lemma spellset_contents_first_occurrence_witness :
  _spellset_contents
    [ {| label := "A"; spells := [3; 1; 3; 2] |};
      {| label := "B"; spells := [2; 5; 1; 7] |} ] !! 1%nat = Some 1
  /\ _spellset_contents
       [ {| label := "A"; spells := [3; 1; 3; 2] |};
         {| label := "B"; spells := [2; 5; 1; 7] |} ] !! 3%nat = Some 5
  /\ (first_index 1%Z (flatten
                         [ {| label := "A"; spells := [3; 1; 3; 2]%Z |};
                           {| label := "B"; spells := [2; 5; 1; 7]%Z |} ])
      < first_index 5%Z (flatten
                           [ {| label := "A"; spells := [3; 1; 3; 2]%Z |};
                             {| label := "B"; spells := [2; 5; 1; 7]%Z |} ]))%nat.
Proof.
  split; [vm_compute; reflexivity |].
  split; [vm_compute; reflexivity |].
  destruct (spellset_contents_first_occurrence
              [ {| label := "A"; spells := [3; 1; 3; 2] |};
                {| label := "B"; spells := [2; 5; 1; 7] |} ])
    as (_ & _ & Horder).
  apply (Horder 1%nat 3%nat).
  - vm_compute. reflexivity.
  - vm_compute. reflexivity.
  - lia.
Defined.

(** ** Letters *)

Lemma wrap_char_succ (c k : Z) :
  wrap_char (wrap_char c + k) = wrap_char (c + k).
Proof.
  unfold wrap_char.
  replace ((c + 128) mod 256 - 128 + k + 128) with ((c + 128) mod 256 + k) by lia.
  rewrite Zplus_mod_idemp_l. f_equal. f_equal. lia.
Qed.

Lemma letters_from_length (c : Z) (n : nat) : length (letters_from c n) = n.
Proof.
  revert c. induction n as [| n IH]; intros c; simpl; [reflexivity |].
  by rewrite IH.
Qed.

Lemma letters_from_app (c : Z) (n m : nat) :
  letters_from c (n + m)
  = letters_from c n ++ letters_from (next_char c n) m.
Proof.
  revert c. induction n as [| n IH]; intros c; simpl; [reflexivity |].
  by rewrite IH.
Qed.

Lemma letters_from_lookup (c : Z) (n k : nat) :
  (k < n)%nat ->
  letters_from (wrap_char c) n !! k = Some (wrap_char (c + Z.of_nat k)).
Proof.
  revert c k. induction n as [| n IH]; intros c k Hk; [lia |].
  destruct k as [| k]; simpl.
  - do 2 f_equal. lia.
  - rewrite wrap_char_succ, IH by lia. do 2 f_equal. lia.
Qed.

Lemma letters_from_a_lookup (n k : nat) :
  letters_from char_a n !! k
  = if (k <? n)%nat then Some (letter_at k) else None.
Proof.
  destruct (Nat.ltb_spec k n) as [Hlt | Hge].
  - change char_a with (wrap_char char_a). by apply letters_from_lookup.
  - apply lookup_ge_None. rewrite letters_from_length. lia.
Qed.

(** Within the alphabet the characters are the letters themselves. *)
Lemma letter_at_alphabet (k : nat) :
  (k < 26)%nat -> letter_at k = 97 + Z.of_nat k /\ 97 <= letter_at k <= 122.
Proof.
  intros Hk. unfold letter_at, wrap_char, char_a.
  rewrite Z.mod_small by lia. lia.
Qed.

(** The characters differ as long as the counter has not wrapped. *)
Lemma letters_from_a_NoDup (n : nat) :
  (n <= 256)%nat -> NoDup (letters_from char_a n).
Proof.
  intros Hn. apply NoDup_alt. intros i j x Hi Hj.
  rewrite letters_from_a_lookup in Hi, Hj.
  destruct (Nat.ltb_spec i n) as [Hin | _]; [| discriminate].
  destruct (Nat.ltb_spec j n) as [Hjn | _]; [| discriminate].
  injection Hi as <-. injection Hj as Heq.
  unfold letter_at, wrap_char, char_a in Heq.
  assert (Hmod : (97 + Z.of_nat j + 128) mod 256 = (97 + Z.of_nat i + 128) mod 256)
    by lia.
  clear Heq.
  pose proof (Z.div_mod (97 + Z.of_nat j + 128) 256 ltac:(lia)) as Hdj.
  pose proof (Z.div_mod (97 + Z.of_nat i + 128) 256 ltac:(lia)) as Hdi.
  pose proof (Z.mod_pos_bound (97 + Z.of_nat j + 128) 256 ltac:(lia)) as Hbj.
  pose proof (Z.mod_pos_bound (97 + Z.of_nat i + 128) 256 ltac:(lia)) as Hbi.
  lia.
Qed.

(** ** The two loops of [map_chars_to_spells] *)

Lemma emplace_fold (l : list spell_type) (c : Z) (ret : list (spell_type * Z)) :
  fold_left emplace_spell l (c, ret)
  = (next_char c (length l), ret ++ zip l (letters_from c (length l))).
Proof.
  revert c ret. induction l as [| spell t IH]; intros c ret; simpl.
  - by rewrite app_nil_r.
  - rewrite IH. f_equal. by rewrite <- app_assoc.
Qed.

Lemma every_other_cons {A : Type} (x : A) (l : list A) :
  every_other (x :: l) = x :: every_other (tail l).
Proof. by destruct l. Qed.

Lemma tail_drop {A : Type} (l : list A) (i : nat) :
  tail (drop (S i) l) = drop (i + 2) l.
Proof.
  replace (i + 2)%nat with (S i + 1)%nat by lia.
  rewrite <- drop_drop. by destruct (drop (S i) l).
Qed.

(** With fuel for every round, a strided loop emits the elements at the
    positions [i], [i + 2], ... with consecutive characters. *)
Lemma stride_loop_spec (fuel : nat) (flat : list spell_type) (i : nat) (c : Z)
  (ret : list (spell_type * Z)) :
  (length (drop i flat) <= 2 * fuel)%nat ->
  stride_loop fuel flat i (c, ret)
  = (next_char c (length (every_other (drop i flat))),
     ret ++ zip (every_other (drop i flat))
                (letters_from c (length (every_other (drop i flat))))).
Proof.
  revert i c ret. induction fuel as [| fuel IH]; intros i c ret Hfuel.
  - destruct (drop i flat); [| simpl in Hfuel; lia].
    simpl. by rewrite app_nil_r.
  - simpl. destruct (flat !! i) as [spell |] eqn:Hi.
    + rewrite (drop_S _ _ _ Hi) in Hfuel |- *.
      rewrite every_other_cons, tail_drop. simpl.
      rewrite IH.
      * f_equal. by rewrite <- app_assoc.
      * simpl in Hfuel. rewrite <- tail_drop.
        destruct (drop (S i) flat); simpl in *; lia.
    + apply lookup_ge_None in Hi. rewrite drop_ge by lia.
      simpl. by rewrite app_nil_r.
Qed.

Lemma every_other_lookup {A : Type} (l : list A) (k : nat) :
  every_other l !! k = l !! (2 * k)%nat.
Proof.
  revert l. induction k as [| k IH]; intros l.
  - by destruct l as [| x [| y t]].
  - destruct l as [| x [| y t]]; [done | done |].
    simpl every_other. replace (2 * S k)%nat with (S (S (2 * k))) by lia.
    simpl. apply IH.
Qed.

Lemma odds_lookup {A : Type} (l : list A) (k : nat) :
  odds l !! k = l !! (2 * k + 1)%nat.
Proof.
  unfold odds. rewrite every_other_lookup.
  replace (2 * k + 1)%nat with (S (2 * k)) by lia. by destruct l.
Qed.

Lemma every_other_two_step {A : Type} (l : list A) :
  (every_other l ++ every_other (tail l) ≡ₚ l
   /\ length (every_other l) = ((length l + 1) / 2)%nat)
  /\ forall x,
       every_other (x :: l) ++ every_other l ≡ₚ x :: l
       /\ length (every_other (x :: l)) = ((length (x :: l) + 1) / 2)%nat.
Proof.
  induction l as [| a t [[IHp IHl] IHx]].
  - split; [split; reflexivity |]. intros x. split; reflexivity.
  - split; [exact (IHx a) |]. intros x.
    change (every_other (x :: a :: t)) with (x :: every_other t). split.
    + rewrite (every_other_cons a t). simpl.
      rewrite <- Permutation_middle. do 2 constructor. exact IHp.
    + simpl length. rewrite IHl.
      replace (S (S (length t)) + 1)%nat with (length t + 1 + 1 * 2)%nat by lia.
      rewrite Nat.div_add by lia. lia.
Qed.

Lemma evens_odds_perm {A : Type} (l : list A) : evens l ++ odds l ≡ₚ l.
Proof. apply every_other_two_step. Qed.

Lemma evens_length {A : Type} (l : list A) :
  length (evens l) = ((length l + 1) / 2)%nat.
Proof. apply every_other_two_step. Qed.

Lemma evens_odds_length {A : Type} (l : list A) :
  (length (evens l) + length (odds l))%nat = length l.
Proof.
  rewrite <- length_app. apply Permutation_length, evens_odds_perm.
Qed.

(** The single-column result, as one list. *)
Lemma map_chars_single (spells_ : spellset) (item : item_def) :
  map_chars_to_spells spells_ (Some item)
  = zip (_spellset_contents spells_)
        (letters_from char_a (length (_spellset_contents spells_))).
Proof.
  unfold map_chars_to_spells. simpl. by rewrite emplace_fold.
Qed.

(** The double-column result, as one list; the fuel of both loops
    suffices. *)
Lemma map_chars_double (spells_ : spellset) :
  map_chars_to_spells spells_ None
  = zip (evens (_spellset_contents spells_) ++ odds (_spellset_contents spells_))
        (letters_from char_a (length (_spellset_contents spells_))).
Proof.
  unfold map_chars_to_spells. simpl.
  set (flat := _spellset_contents spells_).
  rewrite (stride_loop_spec _ flat 0) by (rewrite drop_0; lia).
  rewrite (stride_loop_spec _ flat 1) by (rewrite length_drop; lia).
  simpl. rewrite drop_0.
  replace (every_other (drop 1 flat)) with (odds flat) by (by destruct flat).
  change (every_other flat) with (evens flat).
  rewrite <- (evens_odds_length flat), letters_from_app.
  rewrite zip_with_app by (by rewrite letters_from_length).
  reflexivity.
Qed.

Lemma zip_letters_lookup (l : list spell_type) (k : nat) :
  zip l (letters_from char_a (length l)) !! k
  = (fun spell => (spell, letter_at k)) <$> l !! k.
Proof.
  rewrite lookup_zip_with, letters_from_a_lookup.
  destruct (l !! k) as [spell |] eqn:Hk; [| reflexivity]. simpl.
  apply lookup_lt_Some in Hk.
  destruct (Nat.ltb_spec k (length l)) as [_ | Hge]; [reflexivity | lia].
Qed.

Lemma evens_odds_lookup {A : Type} (l : list A) (k : nat) :
  (evens l ++ odds l) !! k = l !! column_major (length l) k.
Proof.
  unfold column_major. rewrite <- (evens_length l).
  destruct (Nat.ltb_spec k (length (evens l))) as [Hlt | Hge].
  - rewrite lookup_app_l by exact Hlt. apply every_other_lookup.
  - rewrite lookup_app_r by exact Hge. apply odds_lookup.
Qed.

(** C5: [map_chars_to_spells] hands out the characters from ['a'] on.
    With a source item (single column) the [k]-th entry of the result is
    the [k]-th spell of the deduplicated list with the [k]-th character.
    Without one (double column) the [k]-th entry, still with the [k]-th
    character, is the spell at position [column_major n k] of the
    deduplicated list of [n] spells: the even positions in order, then the
    odd positions in order. *)
Theorem map_chars_letters (spells_ : spellset) :
  (forall (item : item_def) (k : nat),
     map_chars_to_spells spells_ (Some item) !! k
     = (fun spell => (spell, letter_at k)) <$> _spellset_contents spells_ !! k)
  /\ (forall k : nat,
        map_chars_to_spells spells_ None !! k
        = (fun spell => (spell, letter_at k))
            <$> _spellset_contents spells_
                  !! column_major (length (_spellset_contents spells_)) k).
Proof.
  split.
  - intros item k. rewrite map_chars_single. apply zip_letters_lookup.
  - intros k. rewrite map_chars_double.
    set (flat := _spellset_contents spells_).
    rewrite <- (Permutation_length (evens_odds_perm flat)).
    rewrite zip_letters_lookup, evens_odds_lookup.
    by rewrite (Permutation_length (evens_odds_perm flat)).
Qed.

(** The result as a whole: keys and characters. *)
Lemma map_chars_keys (spells_ : spellset) (source_item : option item_def) :
  (map_chars_to_spells spells_ source_item).*1 ≡ₚ _spellset_contents spells_
  /\ (map_chars_to_spells spells_ source_item).*2
     = letters_from char_a (length (_spellset_contents spells_)).
Proof.
  destruct source_item as [item |].
  - rewrite map_chars_single.
    rewrite fst_zip, snd_zip by (rewrite letters_from_length; lia). done.
  - rewrite map_chars_double.
    set (flat := _spellset_contents spells_).
    pose proof (Permutation_length (evens_odds_perm flat)) as Hlen.
    rewrite fst_zip, snd_zip by (rewrite letters_from_length; lia).
    split; [apply evens_odds_perm | reflexivity].
Qed.

(** C9, as amended: the keys of the list that [map_chars_to_spells]
    returns are a permutation of the deduplicated spell list, so each
    spell of the set is a key exactly once; the characters are the
    consecutive characters from ['a'] on, in [char] arithmetic; they are
    pairwise different when the set has at most 256 different spells. *)
Theorem map_chars_permutation (spells_ : spellset)
  (source_item : option item_def) :
  (map_chars_to_spells spells_ source_item).*1 ≡ₚ _spellset_contents spells_
  /\ NoDup ((map_chars_to_spells spells_ source_item).*1)
  /\ (forall spell,
        spell ∈ (map_chars_to_spells spells_ source_item).*1
        <-> spell ∈ flatten spells_)
  /\ (map_chars_to_spells spells_ source_item).*2
     = letters_from char_a (length (_spellset_contents spells_))
  /\ ((length (_spellset_contents spells_) <= 256)%nat ->
      NoDup ((map_chars_to_spells spells_ source_item).*2)).
Proof.
  destruct (map_chars_keys spells_ source_item) as [Hperm Hchars].
  assert (Hnd : NoDup (_spellset_contents spells_))
    by (rewrite spellset_contents_eq; apply first_occurrences_NoDup).
  split; [exact Hperm |].
  split; [by rewrite Hperm |].
  split.
  { intros spell.
    by rewrite Hperm, spellset_contents_eq, first_occurrences_elem. }
  split; [exact Hchars |].
  intros Hlen. rewrite Hchars. by apply letters_from_a_NoDup.
Qed.

Lemma map_chars_permutation_witness :
  (length (_spellset_contents (Sample.numbered_book 5)) <= 256)%nat
  /\ NoDup ((map_chars_to_spells (Sample.numbered_book 5) None).*2).
Proof.
  split; [vm_compute; lia |].
  apply (map_chars_permutation (Sample.numbered_book 5) None).
  vm_compute. lia.
Defined.

(** C9 as stated fails: in a set of 257 different spells the first and
    the last entry of the result carry the same character. *)
Lemma map_chars_repeats_letter :
  ~ NoDup ((map_chars_to_spells (Sample.numbered_book 257) None).*2).
Proof.
  intros Hnd.
  assert (H0 : (map_chars_to_spells (Sample.numbered_book 257) None).*2
               !! 0%nat = Some 97) by (vm_compute; reflexivity).
  assert (H256 : (map_chars_to_spells (Sample.numbered_book 257) None).*2
                 !! 256%nat = Some 97) by (vm_compute; reflexivity).
  pose proof (proj1 (NoDup_alt _) Hnd _ _ _ H0 H256). discriminate.
Qed.

(** ** Strings *)

Lemma chars_app (a b : string) : chars (a +:+ b) = chars a ++ chars b.
Proof. induction a as [| c a IH]; simpl; [reflexivity | by rewrite IH]. Qed.

Lemma c_str_chars (s : string) (c : ascii) : c ∈ chars (c_str s) -> c ∈ chars s.
Proof.
  induction s as [| x t IH]; simpl; [done |].
  destruct (Ascii.eqb x zero); simpl.
  - intros Hin. by apply not_elem_of_nil in Hin.
  - rewrite !elem_of_cons. naive_solver.
Qed.

Lemma no_newline_app (a b : string) :
  no_newline a -> no_newline b -> no_newline (a +:+ b).
Proof.
  unfold no_newline. rewrite chars_app, elem_of_app. tauto.
Qed.

Lemma no_newline_c_str (s : string) : no_newline s -> no_newline (c_str s).
Proof. unfold no_newline. intros Hs Hin. exact (Hs (c_str_chars _ _ Hin)). Qed.

Lemma no_newline_make_stringf (pieces : list string) :
  Forall no_newline pieces -> no_newline (make_stringf pieces).
Proof.
  intros Hall. apply no_newline_c_str.
  induction Hall as [| s t Hs _ IH]; simpl.
  - apply not_elem_of_nil.
  - by apply no_newline_app.
Qed.

(** A text given in full holds no newline when evaluation finds none. *)
Ltac closed_no_newline :=
  let Hin := fresh "Hin" in
  unfold no_newline; simpl; intros Hin;
  repeat (apply elem_of_cons in Hin as [Hin | Hin]; [discriminate |]);
  exact (not_elem_of_nil _ Hin).

Lemma no_newline_uint (d : Decimal.uint) :
  no_newline (NilEmpty.string_of_uint d).
Proof.
  unfold no_newline.
  induction d as [| d IH | d IH | d IH | d IH | d IH | d IH | d IH | d IH
                  | d IH | d IH ]; simpl;
    [apply not_elem_of_nil | ..];
    (intros Hin; apply elem_of_cons in Hin as [Heq | Hin];
     [discriminate | exact (IH Hin)]).
Qed.

Lemma no_newline_dec (z : Z) : no_newline (dec z).
Proof.
  unfold dec, NilZero.string_of_int.
  assert (Huint : forall d, no_newline (NilZero.string_of_uint d)).
  { intros d. destruct d; try apply no_newline_uint. closed_no_newline. }
  destruct (Z.to_int z) as [d | d]; [apply Huint |].
  intros Hin. apply elem_of_cons in Hin as [Heq | Hin];
    [discriminate | exact (Huint d Hin)].
Qed.

Lemma no_newline_schools (E : engine) (spell : spell_type) :
  (forall school, no_newline (spelltype_long_name E school)) ->
  no_newline (_spell_schools E spell).
Proof.
  intros Hnames. unfold _spell_schools.
  assert (Hfold : forall l acc, no_newline acc ->
    no_newline
      (fold_left
         (fun schools school_flag =>
            if negb (spell_typematch E spell school_flag) then schools
            else
              let schools :=
                if negb (str_length schools =? 0) then schools +:+ "/"
                else schools in
              schools +:+ c_str (spelltype_long_name E school_flag))
         l acc)).
  { induction l as [| school t IH]; intros acc Hacc; simpl; [exact Hacc |].
    apply IH. destruct (spell_typematch E spell school); simpl; [| exact Hacc].
    apply no_newline_app; [| apply no_newline_c_str, Hnames].
    destruct (str_length acc =? 0); simpl; [exact Hacc |].
    apply no_newline_app; [exact Hacc | closed_no_newline]. }
  apply Hfold. apply not_elem_of_nil.
Qed.

(** ** The one-line summary *)

Lemma terse_spell_desc_eq (E : engine) (spell : spell_type) :
  terse_spell_desc E spell
  = c_str (c_str (spell_title E spell) +:+ " (L"
           +:+ dec (spell_difficulty E spell) +:+ " "
           +:+ c_str (_spell_schools E spell) +:+ ")").
Proof.
  unfold terse_spell_desc, make_stringf. simpl concat_strings.
  do 6 f_equal.
Qed.

Lemma no_newline_terse_spell_desc (E : engine) (spell : spell_type) :
  no_newline (spell_title E spell) ->
  (forall school, no_newline (spelltype_long_name E school)) ->
  no_newline (terse_spell_desc E spell).
Proof.
  intros Htitle Hnames. unfold terse_spell_desc.
  apply no_newline_make_stringf.
  repeat apply Forall_cons_2; try apply Forall_nil_2;
    try closed_no_newline.
  - by apply no_newline_c_str.
  - apply no_newline_dec.
  - by apply no_newline_c_str, no_newline_schools.
Qed.

(** C7: [terse_spell_list] returns the text ["Spells: "] followed by what
    the engine's [comma_separated_line] makes of the entries, one entry
    per spell of the book, in the book's order, each of the form
    [title (Llevel schools)].  The text holds no newline when titles and
    school names hold none and [comma_separated_line] brings none in. *)
Theorem terse_spell_list_line (E : engine) (item : item_def) :
  (forall spell, no_newline (spell_title E spell)) ->
  (forall school, no_newline (spelltype_long_name E school)) ->
  (forall l, Forall no_newline l -> no_newline (comma_separated_line E l)) ->
  terse_spell_list E item
  = "Spells: "
    +:+ comma_separated_line E
          (List.map
             (fun spell =>
                c_str (c_str (spell_title E spell) +:+ " (L"
                       +:+ dec (spell_difficulty E spell) +:+ " "
                       +:+ c_str (_spell_schools E spell) +:+ ")"))
             (spells_in_book E item))
  /\ String.prefix "Spells: " (terse_spell_list E item) = true
  /\ no_newline (terse_spell_list E item).
Proof.
  intros Htitles Hnames Hjoin. split; [| split].
  - unfold terse_spell_list.
    rewrite (map_ext _ _ (terse_spell_desc_eq E)). reflexivity.
  - unfold terse_spell_list. simpl.
    by destruct (comma_separated_line E _).
  - unfold terse_spell_list. apply no_newline_app; [closed_no_newline |].
    apply Hjoin. apply Forall_map, Forall_forall. intros spell _.
    by apply no_newline_terse_spell_desc.
Qed.

Lemma sample_titles (spell : spell_type) :
  no_newline (spell_title Sample.the_engine spell).
Proof.
  simpl. unfold Sample.title_of.
  repeat (destruct (spell =? _); [closed_no_newline |]). closed_no_newline.
Qed.

Lemma sample_school_names (school : Z) :
  no_newline (spelltype_long_name Sample.the_engine school).
Proof.
  simpl. unfold Sample.school_name.
  repeat (destruct (school =? _); [closed_no_newline |]). closed_no_newline.
Qed.

Lemma sample_comma_line (l : list string) :
  Forall no_newline l -> no_newline (comma_separated_line Sample.the_engine l).
Proof.
  simpl. induction 1 as [| s t Hs Ht IH]; [apply not_elem_of_nil |].
  destruct t as [| s' t]; [exact Hs |].
  change (Sample.comma_line (s :: s' :: t))
    with (s +:+ ", " +:+ Sample.comma_line (s' :: t)).
  apply no_newline_app; [exact Hs |].
  apply no_newline_app; [closed_no_newline | exact IH].
Qed.

Lemma terse_spell_list_line_witness :
  terse_spell_list Sample.the_engine Sample.the_book
  = "Spells: Magic Dart (L1 Conjuration), Bolt of Fire (L6 Conjuration/Fire), Blink (L2 Translocation)"
  /\ no_newline (terse_spell_list Sample.the_engine Sample.the_book).
Proof.
  split; [vm_compute; reflexivity |].
  apply (terse_spell_list_line Sample.the_engine Sample.the_book
           sample_titles sample_school_names sample_comma_line).
Defined.

(** ** Indexing in [_colourize] *)

Lemma string_get_some (s : string) (n : nat) :
  (n < String.length s)%nat -> exists c, String.get n s = Some c.
Proof.
  revert n. induction s as [| x t IH]; intros n Hn; simpl in Hn; [lia |].
  destruct n as [| n]; simpl; [by exists x |]. apply IH. lia.
Qed.

Lemma string_at_ok (s : string) (pos : Z) :
  0 <= pos <= str_length s -> exists c, string_at s pos = Ok c.
Proof.
  intros Hpos. unfold string_at.
  destruct (Z.leb_spec 0 pos) as [_ | Hneg]; [| lia].
  destruct (Z.ltb_spec pos (str_length s)) as [Hlt | Hge]; simpl.
  - destruct (string_get_some s (Z.to_nat pos)) as [c ->]; [| by exists c].
    unfold str_length in Hlt. lia.
  - destruct (Z.eqb_spec pos (str_length s)) as [_ | Hne]; [by eexists | lia].
Qed.

Lemma int_range_elem (lo hi x : Z) : x ∈ int_range lo hi -> lo <= x < hi.
Proof.
  unfold int_range. intros Hin.
  apply list_elem_of_In, in_map_iff in Hin as (k & <- & Hk).
  apply in_seq in Hk. lia.
Qed.

Lemma rfold_ok {A S : Type} (body : S -> A -> result S) (l : list A) (st : S) :
  (forall st x, x ∈ l -> exists st', body st x = Ok st') ->
  exists st', rfold body l st = Ok st'.
Proof.
  revert st. induction l as [| x t IH]; intros st Hbody; simpl.
  - by exists st.
  - destruct (Hbody st x ltac:(left)) as [st1 ->]. simpl.
    apply IH. intros st2 y Hy. apply Hbody. by right.
Qed.

Lemma wrap_int_le (z : Z) : 0 <= z -> wrap_int z <= z.
Proof.
  intros Hz. unfold wrap_int.
  pose proof (Z.mod_le (z + 2 ^ 31) (2 ^ 32) ltac:(lia) ltac:(lia)). lia.
Qed.

(** On a text that is not empty every position that [_colourize] reads
    lies within the text. *)
Lemma colourize_nonempty_ok (E : engine) (G : game_state) (base : string)
  (col : colour_t) :
  base <> EmptyString -> exists s, _colourize E G base col = Ok s.
Proof.
  intros Hne. unfold _colourize.
  destruct (col <? NUM_TERM_COLOURS E); [by eexists |].
  assert (Hlen : 1 <= str_length base).
  { destruct base; [done |]. unfold str_length. simpl. lia. }
  destruct (string_at_ok base 0 ltac:(lia)) as [c0 ->]. simpl.
  destruct (rfold_ok (colourize_step E G base col)
              (int_range 1 (wrap_int (str_length base) - 1))
              (make_stringf [str1 c0]))
    as [out ->].
  { intros st i Hi. apply int_range_elem in Hi. unfold colourize_step.
    pose proof (wrap_int_le (str_length base) ltac:(lia)).
    destruct (string_at_ok base i ltac:(lia)) as [c ->]. by eexists. }
  simpl.
  destruct (string_at_ok base (wrap_size_t (str_length base - 1))) as [cl ->];
    [| by eexists].
  unfold wrap_size_t.
  pose proof (Z.mod_pos_bound (str_length base - 1) (2 ^ 64) ltac:(lia)).
  pose proof (Z.mod_le (str_length base - 1) (2 ^ 64) ltac:(lia) ltac:(lia)).
  lia.
Qed.

(** On the empty text, with an element colour, [_colourize] reads the
    position [size_t (0) - 1]. *)
Lemma colourize_empty_faults (E : engine) (G : game_state) (col : colour_t) :
  NUM_TERM_COLOURS E <= col ->
  _colourize E G EmptyString col = Fault (out_of_range (2 ^ 64 - 1)).
Proof.
  intros Hcol. unfold _colourize.
  destruct (Z.ltb_spec col (NUM_TERM_COLOURS E)) as [Hlt | _]; [lia |].
  reflexivity.
Qed.

(** C10 does not hold of the code: on the empty text with an element
    colour [_colourize] reads outside of the text.  The web renderer gets
    there: for the sample book, one spell of which has an element colour
    for its effect, it gets the empty effect text (there is no monster),
    hands it to [_colourize], and
    [_colourize] indexes the text at position [2 ^ 64 - 1], outside of it.
    The console renderer, which calls [_colourize] for a non-empty effect
    text only, comes back with a description for the same book. *)
Theorem colourize_reads_outside_empty_text :
  _colourize Sample.the_engine (Sample.player_at (30, 12)) EmptyString
             Sample.etc_fire
  = Fault (out_of_range (2 ^ 64 - 1))
  /\ write_spellset Sample.the_engine (Sample.player_at (30, 12)) 1
       (item_spellset Sample.the_engine Sample.the_book)
       (Some Sample.the_book) None []
     = Fault (out_of_range (2 ^ 64 - 1))
  /\ is_ok (describe_item_spells Sample.the_engine (Sample.player_at (30, 12)) 1
                                 Sample.the_book) = true.
Proof. vm_compute. repeat split. Qed.

(** ** Lookups that find nothing *)

Lemma find_none {B : Type} (m : list (Z * B)) (key : Z) :
  key ∉ m.*1 -> List.find (fun e => fst e =? key) m = None.
Proof.
  induction m as [| [k v] t IH]; intros Hkey; simpl; [reflexivity |].
  simpl in Hkey. apply not_elem_of_cons in Hkey as [Hne Hkey].
  destruct (Z.eqb_spec k key) as [Heq | _]; [congruence | by apply IH].
Qed.

Lemma spell_letter_blank (spell_map : list (spell_type * Z)) (spell : spell_type) :
  spell ∉ spell_map.*1 -> spell_letter_of spell_map spell = char_blank.
Proof.
  intros Hkey. unfold spell_letter_of. by rewrite find_none.
Qed.

Lemma parsed_lines_app (a b : formatted_string) :
  parsed_lines (a ++ b) = parsed_lines a ++ parsed_lines b.
Proof.
  induction a as [| op a IH]; simpl; [reflexivity |].
  destruct op; simpl; by rewrite IH.
Qed.

Lemma json_letters_app (a b : list json_op) :
  json_letters (a ++ b) = json_letters a ++ json_letters b.
Proof.
  induction a as [| op a IH]; simpl; [reflexivity |].
  destruct op; simpl; try (by rewrite IH).
  destruct (String.eqb name "letter"); simpl; by rewrite IH.
Qed.

(** The line of a spell with the blank for a letter. *)
Lemma book_line_blank (E : engine) (spell_name : string) (chop_len : Z)
  (effect_str : string) (effect_range_space : Z) (range_str : string) :
  String.prefix "  - "
    (book_line E char_blank spell_name chop_len effect_str effect_range_space
               range_str) = true.
Proof.
  unfold book_line, make_stringf.
  change (str1 (ascii_of_char char_blank)) with " "%string.
  simpl concat_strings. simpl.
  by destruct (c_str _).
Qed.

Lemma effect_len_nonzero (s : string) :
  negb (wrap_int (str_length s) =? 0) = true -> s <> EmptyString.
Proof. intros Hlen ->. vm_compute in Hlen. discriminate. Qed.

(** C6: what is looked up and not found is replaced, nothing fails.  A
    spell-slot flag that is no key of the table of descriptors is
    described as ["buggy"].  A spell that is no key of the letter map gets
    the blank for a letter: when its effect text is at hand,
    [_describe_book] comes back from the round for that spell having
    parsed one more line, which starts with the blank in the place of the
    letter; and [_write_book], when the effect text is at hand and
    colourized, writes the blank under ["letter"]. *)
Theorem lookups_fail_soft (E : engine) :
  (forall type : mon_spell_slot_flag,
     type ∉ (descriptors E).*1 -> _ability_type_descriptor E type = "buggy")
  /\ (forall (spell_map : list (spell_type * Z)) (spell : spell_type),
        spell ∉ spell_map.*1 -> spell_letter_of spell_map spell = char_blank)
  /\ (forall G fuel spell_map source_item mon_owner hd description
             first_line_element spell effect_str,
        spell ∉ spell_map.*1 ->
        _effect_string E G fuel spell mon_owner = Ok effect_str ->
        exists description' first_line_element' line,
          describe_book_spell E G fuel spell_map source_item mon_owner hd
            (_list_spells_doublecolumn source_item)
            (description, first_line_element) spell
          = Ok (description', first_line_element')
          /\ parsed_lines description' = parsed_lines description ++ [line]
          /\ String.prefix "  - " line = true)
  /\ (forall G fuel spell_map source_item mon_owner hd out spell effect_str
             coloured,
        spell ∉ spell_map.*1 ->
        _effect_string E G fuel spell mon_owner = Ok effect_str ->
        (if negb (testbits (get_spell_flags E spell) (spflag_WL_check E))
         then _colourize E G effect_str (_spell_colour E spell)
         else Ok effect_str) = Ok coloured ->
        exists out',
          write_book_spell E G fuel spell_map source_item mon_owner hd out spell
          = Ok out'
          /\ json_letters out' = json_letters out ++ [" "%string]).
Proof.
  split; [| split; [| split]].
  - intros type Hkey. unfold _ability_type_descriptor, lookup.
    by rewrite find_none.
  - apply spell_letter_blank.
  - intros G fuel spell_map source_item mon_owner hd description
           first_line_element spell effect_str Hkey Heff.
    unfold describe_book_spell. rewrite Heff, (spell_letter_blank _ _ Hkey).
    simpl rbind.
    set (guard := negb (wrap_int (str_length effect_str) =? 0)
                  && negb (testbits (get_spell_flags E spell)
                                    (spflag_WL_check E))).
    assert (Hcol : exists s,
      (if guard then _colourize E G effect_str (_spell_colour E spell)
       else Ok effect_str) = Ok s).
    { destruct guard eqn:Hguard; [| by eexists].
      apply colourize_nonempty_ok, effect_len_nonzero.
      unfold guard in Hguard. by apply andb_prop in Hguard as [-> _]. }
    destruct Hcol as [coloured ->]. simpl rbind.
    destruct source_item as [item |]; simpl _list_spells_doublecolumn; cbv iota.
    + do 3 eexists. split; [reflexivity |].
      split; [| apply book_line_blank].
      rewrite !parsed_lines_app. simpl.
      destruct mon_owner; simpl; rewrite ?parsed_lines_app; simpl;
        by rewrite ?app_nil_r.
    + do 3 eexists. split; [reflexivity |].
      split; [| apply book_line_blank].
      rewrite !parsed_lines_app. simpl.
      destruct mon_owner; simpl; rewrite ?parsed_lines_app; simpl;
        by rewrite ?app_nil_r.
  - intros G fuel spell_map source_item mon_owner hd out spell effect_str
           coloured Hkey Heff Hcol.
    unfold write_book_spell. rewrite Heff, (spell_letter_blank _ _ Hkey).
    simpl rbind. rewrite Hcol. simpl rbind.
    eexists. split; [reflexivity |].
    rewrite !json_letters_app. simpl.
    destruct (0 <? str_length _); rewrite ?json_letters_app; simpl;
      by rewrite ?app_nil_r.
Qed.

(** A number given in full is none of the numbers of a list given in
    full when it differs from each. *)
Ltac closed_not_elem :=
  let Hin := fresh "Hin" in
  simpl; intros Hin;
  repeat (apply elem_of_cons in Hin as [Hin | Hin]; [discriminate |]);
  exact (not_elem_of_nil _ Hin).

Lemma lookups_fail_soft_witness :
  _ability_type_descriptor Sample.the_engine 16 = "buggy"
  /\ spell_letter_of [(1, 97)] Sample.spell_fire_bolt = char_blank
  /\ (exists description' first_line_element' line,
        describe_book_spell Sample.the_engine (Sample.player_at (12, 12)) 1
          [(1, 97)] None (Some Sample.the_monster) 6
          (_list_spells_doublecolumn None) ([], true) Sample.spell_fire_bolt
        = Ok (description', first_line_element')
        /\ parsed_lines description' = parsed_lines [] ++ [line]
        /\ String.prefix "  - " line = true)
  /\ (exists out',
        write_book_spell Sample.the_engine (Sample.player_at (12, 12)) 1
          [(1, 97)] None (Some Sample.the_monster) 6 [] Sample.spell_fire_bolt
        = Ok out'
        /\ json_letters out' = json_letters [] ++ [" "%string]).
Proof.
  destruct (lookups_fail_soft Sample.the_engine) as (Hdesc & Hletter & Hbook & Hweb).
  split; [apply Hdesc; closed_not_elem |].
  split; [apply Hletter; closed_not_elem |].
  split.
  - apply (Hbook (Sample.player_at (12, 12)) 1%nat [(1, 97)] None
                 (Some Sample.the_monster) 6 [] true Sample.spell_fire_bolt
                 "(3d14)"%string).
    + closed_not_elem.
    + vm_compute. reflexivity.
  - apply (Hweb (Sample.player_at (12, 12)) 1%nat [(1, 97)] None
                (Some Sample.the_monster) 6 [] Sample.spell_fire_bolt
                "(3d14)"%string
                "(<yellow>3</yellow><red>d</red><yellow>1</yellow><red>4</red>)"%string).
    + closed_not_elem.
    + vm_compute. reflexivity.
    + vm_compute. reflexivity.
Defined.

(** ** What the texts of a spell depend on *)

Lemma effect_string_damage_text (E : engine) (G : game_state) (fuel : nat)
  (spell : spell_type) (mon : monster_info) :
  testbits (get_spell_flags E spell) (spflag_WL_check E) = false ->
  spell <> SPELL_CONJURE_LIVING_SPELLS E ->
  _effect_string E G fuel spell (Some mon)
  = Ok (damage_text E spell (_spell_hd E spell mon)).
Proof.
  intros HWL Hne. apply Z.eqb_neq in Hne. unfold damage_text.
  destruct fuel; simpl; rewrite Hne, HWL;
    (destruct (_spell_hd E spell mon =? 0); [reflexivity |]);
    (destruct (spell =? SPELL_SMITING E); [reflexivity |]);
    destruct (_ || _); reflexivity.
Qed.

Lemma range_string_text (E : engine) (G : game_state) (spell : spell_type)
  (mon : monster_info) (hd : Z) :
  _range_string E G spell (Some mon) hd
  = range_text E spell hd
      (player_in_range E G mon
         (spell_range E spell (mons_power_for_hd E spell hd) false)).
Proof.
  unfold _range_string, range_text, player_in_range.
  destruct ((0 <? spell_range E spell (mons_power_for_hd E spell hd) false)
            && negb (testbits (get_spell_flags E spell) (spflag_selfench E)));
    reflexivity.
Qed.

(** C3, as amended.  [_spell_damage] and [_spell_schools] take the spell
    (and the hit dice) and read the engine's tables only.  For a spell
    that is neither checked against willpower nor Conjure Living Spells,
    the effect text is [damage_text] of the spell and the hit dice, in any
    game state and for any monster with these hit dice.  The range text is
    [range_text] of the spell, the hit dice and one bit that is read from
    the game state, whether the player is within range of the monster; two
    evaluations that agree on this bit return the same text, and without a
    monster the text is empty. *)
Theorem spell_strings_determined (E : engine) (spell : spell_type) (hd : Z) :
  (forall G1 G2 fuel1 fuel2 mon1 mon2,
     testbits (get_spell_flags E spell) (spflag_WL_check E) = false ->
     spell <> SPELL_CONJURE_LIVING_SPELLS E ->
     _spell_hd E spell mon1 = hd ->
     _spell_hd E spell mon2 = hd ->
     _effect_string E G1 fuel1 spell (Some mon1) = Ok (damage_text E spell hd)
     /\ _effect_string E G2 fuel2 spell (Some mon2)
        = _effect_string E G1 fuel1 spell (Some mon1))
  /\ (forall G1 G2 mon1 mon2,
        player_in_range E G1 mon1
          (spell_range E spell (mons_power_for_hd E spell hd) false)
        = player_in_range E G2 mon2
            (spell_range E spell (mons_power_for_hd E spell hd) false) ->
        _range_string E G1 spell (Some mon1) hd
        = _range_string E G2 spell (Some mon2) hd)
  /\ (forall G mon,
        _range_string E G spell (Some mon) hd
        = range_text E spell hd
            (player_in_range E G mon
               (spell_range E spell (mons_power_for_hd E spell hd) false)))
  /\ (forall G, _range_string E G spell None hd = EmptyString).
Proof.
  split; [| split; [| split]].
  - intros G1 G2 fuel1 fuel2 mon1 mon2 HWL Hne Hhd1 Hhd2.
    rewrite !effect_string_damage_text by assumption.
    by rewrite Hhd1, Hhd2.
  - intros G1 G2 mon1 mon2 Hbit. rewrite !range_string_text. by rewrite Hbit.
  - intros G mon. apply range_string_text.
  - intros G. reflexivity.
Qed.

Lemma spell_strings_determined_witness :
  _effect_string Sample.the_engine (Sample.player_at (30, 12)) 0
    Sample.spell_fire_bolt (Some Sample.the_monster)
  = Ok "(3d14)"%string
  /\ _range_string Sample.the_engine (Sample.player_at (12, 12))
       Sample.spell_fire_bolt (Some Sample.the_monster) 6
     = _range_string Sample.the_engine (Sample.player_at (9, 11))
         Sample.spell_fire_bolt (Some Sample.the_monster) 6.
Proof.
  destruct (spell_strings_determined Sample.the_engine Sample.spell_fire_bolt 6)
    as (Heffect & Hrange & _).
  split.
  - apply (Heffect (Sample.player_at (30, 12)) (Sample.player_at (12, 12))
                   0%nat 1%nat Sample.the_monster Sample.the_monster);
      vm_compute; (reflexivity || discriminate).
  - apply Hrange. vm_compute. reflexivity.
Defined.

(** C3 as stated fails: for the same spell, the same hit dice and the
    same monster the range text changes with the position of the
    player. *)
Lemma range_string_changes_with_player :
  _range_string Sample.the_engine (Sample.player_at (12, 12))
    Sample.spell_fire_bolt (Some Sample.the_monster) 6
  = "(<lightred>5</lightred>)"%string
  /\ _range_string Sample.the_engine (Sample.player_at (30, 12))
       Sample.spell_fire_bolt (Some Sample.the_monster) 6
     = "(<lightgray>5</lightgray>)"%string
  /\ _range_string Sample.the_engine (Sample.player_at (12, 12))
       Sample.spell_fire_bolt (Some Sample.the_monster) 6
     <> _range_string Sample.the_engine (Sample.player_at (30, 12))
          Sample.spell_fire_bolt (Some Sample.the_monster) 6.
Proof.
  split; [vm_compute; reflexivity |].
  split; [vm_compute; reflexivity |].
  vm_compute. discriminate.
Qed.

(** * Further properties of the spell descriptions *)

(** ** The deduplicated list *)

Lemma first_occurrences_fixed (l : list spell_type) :
  NoDup l -> first_occurrences l = l.
Proof.
  induction 1 as [| x t Hx _ IH]; simpl; [reflexivity |].
  rewrite IH. f_equal. apply filter_all, Forall_forall.
  intros y Hy ->. exact (Hx Hy).
Qed.

Lemma first_occurrences_length (l : list spell_type) :
  (length (first_occurrences l) <= length l)%nat.
Proof.
  induction l as [| x t IH]; simpl; [lia |].
  pose proof (length_filter (fun y => y <> x) (first_occurrences t)). lia.
Qed.

(** X7: [_spellset_contents] returns the spells of the set unchanged,
    in their order, exactly when the set holds no spell twice; it never
    returns more spells than the set has. *)
Theorem spellset_contents_unchanged (spells_ : spellset) :
  (_spellset_contents spells_ = flatten spells_ <-> NoDup (flatten spells_))
  /\ (length (_spellset_contents spells_) <= length (flatten spells_))%nat.
Proof.
  rewrite spellset_contents_eq. split; [split |].
  - intros <-. apply first_occurrences_NoDup.
  - apply first_occurrences_fixed.
  - apply first_occurrences_length.
Qed.

Lemma spellset_contents_unchanged_witness :
  NoDup (flatten [ {| label := "A"; spells := [3; 1] |};
                   {| label := "B"; spells := [2] |} ])
  /\ _spellset_contents [ {| label := "A"; spells := [3; 1] |};
                          {| label := "B"; spells := [2] |} ]
     = flatten [ {| label := "A"; spells := [3; 1] |};
                 {| label := "B"; spells := [2] |} ].
Proof.
  assert (Hnd : NoDup (flatten [ {| label := "A"; spells := [3; 1] |};
                                 {| label := "B"; spells := [2] |} ])).
  { change (NoDup [3; 1; 2]).
    repeat (apply NoDup_cons_2; [closed_not_elem |]). apply NoDup_nil_2. }
  split; [exact Hnd |].
  apply (proj1 (spellset_contents_unchanged
                  [ {| label := "A"; spells := [3; 1] |};
                    {| label := "B"; spells := [2] |} ])).
  exact Hnd.
Defined.

(** X8: to deduplicate what is deduplicated changes nothing: the
    contents of the one book that holds the contents of a set are the
    contents of the set. *)
Theorem spellset_contents_idempotent (spells_ : spellset) (text : string) :
  _spellset_contents
    [ {| label := text; spells := _spellset_contents spells_ |} ]
  = _spellset_contents spells_.
Proof.
  rewrite (spellset_contents_eq [_]). unfold flatten. simpl.
  rewrite app_nil_r. apply first_occurrences_fixed.
  rewrite spellset_contents_eq. apply first_occurrences_NoDup.
Qed.

(** ** Letters looked up *)

Lemma find_key_some {B : Type} (m : list (Z * B)) (key : Z) :
  key ∈ m.*1 ->
  exists e, List.find (fun e => fst e =? key) m = Some e
            /\ fst e = key /\ e ∈ m.
Proof.
  induction m as [| [k v] t IH]; simpl; intros Hkey.
  - by apply not_elem_of_nil in Hkey.
  - destruct (Z.eqb_spec k key) as [-> | Hne].
    + exists (key, v). repeat split. by left.
    + apply elem_of_cons in Hkey as [Heq | Hkey]; [congruence |].
      destruct (IH Hkey) as (e & Hfind & Hfst & Hin).
      exists e. repeat split; [exact Hfind | exact Hfst | by right].
Qed.

Lemma map_chars_entry_letter (spells_ : spellset)
  (source_item : option item_def) (k : nat) (spell : spell_type) (ch : Z) :
  map_chars_to_spells spells_ source_item !! k = Some (spell, ch) ->
  ch = letter_at k.
Proof.
  intros Hk.
  assert (Hch : (map_chars_to_spells spells_ source_item).*2 !! k = Some ch)
    by (by rewrite list_lookup_fmap, Hk).
  rewrite (proj2 (map_chars_keys spells_ source_item)) in Hch.
  rewrite letters_from_a_lookup in Hch.
  destruct (_ <? _)%nat; congruence.
Qed.

Lemma map_chars_has_key (spells_ : spellset) (source_item : option item_def)
  (spell : spell_type) :
  spell ∈ flatten spells_ ->
  spell ∈ (map_chars_to_spells spells_ source_item).*1.
Proof.
  intros Hin.
  rewrite (proj1 (map_chars_keys spells_ source_item)).
  by rewrite spellset_contents_eq, first_occurrences_elem.
Qed.

(** X9: a spell of the set is found in the map that
    [map_chars_to_spells] makes of the set: the letter looked up for it
    is the character of its entry, the [k]-th character from ['a'] for the
    entry at position [k].  The blank that stands in for a missing
    entry is not what the lookup falls back to. *)
Theorem spell_letter_found (spells_ : spellset)
  (source_item : option item_def) (spell : spell_type) :
  spell ∈ flatten spells_ ->
  exists k,
    map_chars_to_spells spells_ source_item !! k
    = Some (spell, spell_letter_of (map_chars_to_spells spells_ source_item) spell)
    /\ spell_letter_of (map_chars_to_spells spells_ source_item) spell
       = letter_at k
    /\ List.find (fun e => fst e =? spell)
                 (map_chars_to_spells spells_ source_item)
       <> None.
Proof.
  intros Hin.
  destruct (find_key_some _ _ (map_chars_has_key spells_ source_item spell Hin))
    as ([key ch] & Hfind & Hfst & Hentry).
  simpl in Hfst. subst key.
  apply list_elem_of_lookup_1 in Hentry as [k Hk].
  exists k. unfold spell_letter_of. rewrite Hfind. simpl.
  split; [exact Hk |]. split; [| discriminate].
  exact (map_chars_entry_letter _ _ _ _ _ Hk).
Qed.

Lemma spell_letter_found_witness :
  Sample.spell_blink
    ∈ flatten (item_spellset Sample.the_engine Sample.the_book)
  /\ exists k,
       map_chars_to_spells (item_spellset Sample.the_engine Sample.the_book)
                           (Some Sample.the_book) !! k
       = Some (Sample.spell_blink,
               spell_letter_of
                 (map_chars_to_spells
                    (item_spellset Sample.the_engine Sample.the_book)
                    (Some Sample.the_book)) Sample.spell_blink)
       /\ spell_letter_of
            (map_chars_to_spells
               (item_spellset Sample.the_engine Sample.the_book)
               (Some Sample.the_book)) Sample.spell_blink
          = letter_at k
       /\ List.find (fun e => fst e =? Sample.spell_blink)
                    (map_chars_to_spells
                       (item_spellset Sample.the_engine Sample.the_book)
                       (Some Sample.the_book))
          <> None.
Proof.
  assert (Hin : Sample.spell_blink
                ∈ flatten (item_spellset Sample.the_engine Sample.the_book)).
  { vm_compute. do 2 right. left. }
  split; [exact Hin |].
  exact (spell_letter_found _ (Some Sample.the_book) _ Hin).
Defined.

(** ** Colours of a book *)

(** X10: for a spell of a book the listing colour is one of the five
    fixed colours; what [spell_highlight_by_utility] says is never
    used. *)
Theorem spell_colour_of_book (E : engine) (G : game_state)
  (spell : spell_type) (item : item_def) :
  _spell_colour_listed E G spell (Some item)
  ∈ [ COL_UNKNOWN E; COL_MEMORIZED E; COL_USELESS E; COL_FORBIDDEN E;
      COL_UNMEMORIZED E ].
Proof.
  unfold _spell_colour_listed.
  destruct (need_save G); simpl; [| set_solver].
  destruct (you_has_spell G spell) eqn:Hhas; simpl; [set_solver |].
  destruct (_ || _); [set_solver |].
  destruct (god_hates_spell E spell (you_religion G)); set_solver.
Qed.

(** ** Headers of monster books *)

Lemma vulnerabilities_none (E : engine) (type : mon_spell_slot_flag) :
  _ability_type_vulnerabilities E type = None
  <-> type ∉ [ MON_SPELL_NATURAL E; MON_SPELL_WIZARD E; MON_SPELL_PRIEST E;
               MON_SPELL_VOCAL E; MON_SPELL_MAGICAL E ].
Proof.
  unfold _ability_type_vulnerabilities. rewrite !not_elem_of_cons.
  destruct (Z.eqb_spec type (MON_SPELL_NATURAL E)) as [-> | Hn];
    [split; [discriminate | tauto] |].
  destruct (Z.eqb_spec type (MON_SPELL_WIZARD E)) as [-> | Hw];
    [split; [discriminate | tauto] |].
  destruct (Z.eqb_spec type (MON_SPELL_PRIEST E)) as [-> | Hp];
    [split; [discriminate | tauto] |].
  destruct (Z.eqb_spec type (MON_SPELL_VOCAL E)) as [-> | Hv];
    [split; [discriminate | tauto] |].
  destruct (Z.eqb_spec type (MON_SPELL_MAGICAL E)) as [-> | Hm];
    [split; [discriminate | tauto] |].
  simpl. split; [| reflexivity]. intros _.
  repeat split; try assumption. apply not_elem_of_nil.
Qed.

Lemma booktype_header_none (E : engine) (M : monster_engine)
  (type : mon_spell_slot_flag) (pronoun_plural : bool) :
  _booktype_header E M type pronoun_plural = None
  <-> _ability_type_vulnerabilities E type = None.
Proof.
  unfold _booktype_header.
  destruct (_ability_type_vulnerabilities E type); [| done].
  destruct (type =? MON_SPELL_WIZARD E); split; discriminate.
Qed.

(** X11: [_booktype_header] fails its assertion exactly for a flag that
    is none of the five kinds of monster spells.  When it returns a
    header for abilities (the flag is not the wizard's), the descriptor in
    it was found in the table: it is never ["buggy"]. *)
Theorem booktype_header_flags (E : engine) (M : monster_engine)
  (type : mon_spell_slot_flag) (pronoun_plural : bool) :
  (_booktype_header E M type pronoun_plural = None
   <-> type ∉ [ MON_SPELL_NATURAL E; MON_SPELL_WIZARD E; MON_SPELL_PRIEST E;
                MON_SPELL_VOCAL E; MON_SPELL_MAGICAL E ])
  /\ (_booktype_header E M type pronoun_plural <> None ->
      type <> MON_SPELL_WIZARD E ->
      _ability_type_descriptor E type ∈ ["natural"; "magical"; "divine"]%string
      /\ _ability_type_descriptor E type <> "buggy"%string).
Proof.
  split.
  - rewrite booktype_header_none. apply vulnerabilities_none.
  - intros Hsome Hw. rewrite booktype_header_none, vulnerabilities_none in Hsome.
    assert (Hknown : _ability_type_descriptor E type
                     ∈ ["natural"; "magical"; "divine"]%string).
    { unfold _ability_type_descriptor, lookup, descriptors. simpl.
      destruct (Z.eqb_spec (MON_SPELL_NATURAL E) type) as [Hn | Hn];
        [set_solver |].
      destruct (Z.eqb_spec (MON_SPELL_MAGICAL E) type) as [Hm | Hm];
        [set_solver |].
      destruct (Z.eqb_spec (MON_SPELL_PRIEST E) type) as [Hp | Hp];
        [set_solver |].
      destruct (Z.eqb_spec (MON_SPELL_VOCAL E) type) as [Hv | Hv];
        [set_solver |].
      exfalso. apply Hsome. rewrite !not_elem_of_cons.
      repeat split; try congruence. apply not_elem_of_nil. }
    split; [exact Hknown |]. intros Hbuggy. rewrite Hbuggy in Hknown.
    repeat (apply elem_of_cons in Hknown as [Hknown | Hknown]; [discriminate |]).
    by apply not_elem_of_nil in Hknown.
Qed.

Lemma booktype_header_flags_witness :
  _booktype_header Sample.the_engine Sample.the_monster_engine 8 true <> None
  /\ _ability_type_descriptor Sample.the_engine 8
     ∈ ["natural"; "magical"; "divine"]%string
  /\ _ability_type_descriptor Sample.the_engine 8 <> "buggy"%string.
Proof.
  assert (Hsome : _booktype_header Sample.the_engine Sample.the_monster_engine
                                   8 true <> None)
    by (vm_compute; discriminate).
  split; [exact Hsome |].
  apply (proj2 (booktype_header_flags Sample.the_engine
                  Sample.the_monster_engine 8 true) Hsome).
  vm_compute. discriminate.
Defined.

(** ** Texts put together *)

Lemma string_app_assoc (a b c : string) : (a +:+ b) +:+ c = a +:+ b +:+ c.
Proof.
  induction a as [| x a IH]; [reflexivity |].
  change (String x ((a +:+ b) +:+ c) = String x (a +:+ b +:+ c)).
  by rewrite IH.
Qed.


Lemma str_length_app (a b : string) :
  str_length (a +:+ b) = str_length a + str_length b.
Proof.
  unfold str_length.
  assert (Hlen : String.length (a +:+ b)
                 = (String.length a + String.length b)%nat).
  { induction a as [| x a IH]; [reflexivity |].
    change (S (String.length (a +:+ b))
            = S (String.length a + String.length b)).
    by rewrite IH. }
  lia.
Qed.

Lemma str_length_cons (c : ascii) (t : string) :
  str_length (String c t) = 1 + str_length t.
Proof. unfold str_length. simpl String.length. lia. Qed.

Lemma str_length_nonneg (s : string) : 0 <= str_length s.
Proof. unfold str_length. lia. Qed.

Lemma str_length_zero (s : string) : (str_length s =? 0) = true -> s = EmptyString.
Proof.
  destruct s; [reflexivity |]. rewrite str_length_cons.
  pose proof (str_length_nonneg s). intros Hz. apply Z.eqb_eq in Hz. lia.
Qed.

Lemma str_length_positive (s : string) :
  s <> EmptyString -> (str_length s =? 0) = false.
Proof.
  destruct s; [done |]. intros _. rewrite str_length_cons.
  pose proof (str_length_nonneg s). apply Z.eqb_neq. lia.
Qed.

Lemma join_with_cons (sep a : string) (l : list string) :
  l <> [] -> join_with sep (a :: l) = a +:+ sep +:+ join_with sep l.
Proof. by destruct l. Qed.

(** The loop of [_spell_schools], from any text gathered so far. *)
Lemma spell_schools_fold (E : engine) (spell : spell_type) (l : list Z)
  (acc : string) :
  (forall school, school ∈ l -> spell_typematch E spell school = true ->
                  c_str (spelltype_long_name E school) <> EmptyString) ->
  fold_left
    (fun schools school_flag =>
       if negb (spell_typematch E spell school_flag) then schools
       else
         let schools :=
           if negb (str_length schools =? 0) then schools +:+ "/" else schools in
         schools +:+ c_str (spelltype_long_name E school_flag))
    l acc
  = if str_length acc =? 0
    then join_with "/" (List.map (fun school => c_str (spelltype_long_name E school))
                                 (List.filter (spell_typematch E spell) l))
    else join_with "/" (acc :: List.map (fun school => c_str (spelltype_long_name E school))
                                        (List.filter (spell_typematch E spell) l)).
Proof.
  revert acc. induction l as [| school t IH]; intros acc Hnames.
  - simpl. destruct (str_length acc =? 0) eqn:Hacc; [| reflexivity].
    by apply str_length_zero in Hacc.
  - simpl fold_left. simpl List.filter.
    assert (Ht : forall school', school' ∈ t ->
              spell_typematch E spell school' = true ->
              c_str (spelltype_long_name E school') <> EmptyString).
    { intros school' Hin. apply Hnames. by right. }
    destruct (spell_typematch E spell school) eqn:Hmatch; simpl negb; cbv iota;
      [| by apply IH].
    pose proof (Hnames school ltac:(left) Hmatch) as Hname.
    set (name := c_str (spelltype_long_name E school)) in *.
    set (names := List.map (fun school0 => c_str (spelltype_long_name E school0))
                           (List.filter (spell_typematch E spell) t)).
    rewrite IH by exact Ht. fold names. cbv zeta.
    destruct (str_length acc =? 0) eqn:Hacc; simpl negb; cbv iota.
    + apply str_length_zero in Hacc. subst acc.
      change (EmptyString +:+ name) with name.
      rewrite (str_length_positive _ Hname). reflexivity.
    + assert (Hacc' : (str_length ((acc +:+ "/") +:+ name) =? 0) = false).
      { apply Z.eqb_neq. rewrite !str_length_app.
        apply Z.eqb_neq in Hacc.
        pose proof (str_length_nonneg acc). pose proof (str_length_nonneg name).
        pose proof (str_length_nonneg "/"). lia. }
      rewrite Hacc'.
      change (List.map (fun school0 => c_str (spelltype_long_name E school0))
                       (school :: List.filter (spell_typematch E spell) t))
        with (name :: names).
      rewrite (join_with_cons "/" acc (name :: names)) by done.
      destruct names as [| n r].
      * simpl. by rewrite string_app_assoc.
      * rewrite (join_with_cons "/" _ (n :: r)) by done.
        rewrite (join_with_cons "/" name (n :: r)) by done.
        by rewrite !string_app_assoc.
Qed.

(** X12: when no school of the spell has an empty name,
    [_spell_schools] returns the names of the spell's schools, in the
    order of the engine's range of schools, with a slash between two
    names and none in front or behind. *)
Theorem spell_schools_joined (E : engine) (spell : spell_type) :
  (forall school, school ∈ spschools_range E ->
                  spell_typematch E spell school = true ->
                  c_str (spelltype_long_name E school) <> EmptyString) ->
  _spell_schools E spell = join_with "/" (school_names E spell).
Proof.
  intros Hnames.
  exact (spell_schools_fold E spell (spschools_range E) EmptyString Hnames).
Qed.

Lemma sample_school_names_nonempty (spell : spell_type) (school : Z) :
  school ∈ spschools_range Sample.the_engine ->
  spell_typematch Sample.the_engine spell school = true ->
  c_str (spelltype_long_name Sample.the_engine school) <> EmptyString.
Proof.
  intros Hin _. simpl in Hin.
  repeat (apply elem_of_cons in Hin as [-> | Hin]; [vm_compute; discriminate |]).
  by apply not_elem_of_nil in Hin.
Qed.

Lemma spell_schools_joined_witness :
  _spell_schools Sample.the_engine Sample.spell_fire_bolt
  = join_with "/" ["Conjuration"; "Fire"]%string.
Proof.
  exact (spell_schools_joined Sample.the_engine Sample.spell_fire_bolt
           (sample_school_names_nonempty Sample.spell_fire_bolt)).
Defined.

(** ** What [_colourize] makes of a text *)











(** ** When [_effect_string] comes back *)

Lemma effect_string_fuel_free (E : engine) (G : game_state) (fuel : nat)
  (spell : spell_type) (mon_owner : option monster_info) :
  spell <> SPELL_CONJURE_LIVING_SPELLS E ->
  _effect_string E G fuel spell mon_owner = _effect_string E G 0 spell mon_owner.
Proof.
  intros Hne. apply Z.eqb_neq in Hne.
  destruct mon_owner as [mon |]; destruct fuel; simpl; rewrite ?Hne; reflexivity.
Qed.

Lemma effect_string_plain_ok (E : engine) (G : game_state) (fuel : nat)
  (spell : spell_type) (mon_owner : option monster_info) :
  spell <> SPELL_CONJURE_LIVING_SPELLS E ->
  exists s, _effect_string E G fuel spell mon_owner = Ok s.
Proof.
  intros Hne. rewrite effect_string_fuel_free by exact Hne.
  apply Z.eqb_neq in Hne.
  destruct mon_owner as [mon |]; simpl; [| by eexists]. rewrite Hne.
  repeat match goal with
         | |- exists s, (if ?b then _ else _) = Ok s => destruct b
         end; by eexists.
Qed.

Lemma effect_string_ok (E : engine) (G : game_state) (fuel : nat)
  (spell : spell_type) (mon : monster_info) :
  (1 <= fuel)%nat ->
  living_spell_type_for E (mi_type mon) <> SPELL_CONJURE_LIVING_SPELLS E ->
  exists s, _effect_string E G fuel spell (Some mon) = Ok s.
Proof.
  intros Hfuel Hliving.
  destruct (Z.eqb_spec spell (SPELL_CONJURE_LIVING_SPELLS E)) as [-> | Hne];
    [| by apply effect_string_plain_ok].
  destruct fuel as [| fuel]; [lia |]. simpl. rewrite Z.eqb_refl.
  unfold _describe_living_spells.
  destruct (effect_string_plain_ok E G fuel _ (Some mon) Hliving) as [base ->].
  simpl rbind.
  destruct (string_at_ok base 0) as [c0 ->];
    [pose proof (str_length_nonneg base); lia |].
  by eexists.
Qed.

Lemma effect_string_none (E : engine) (G : game_state) (fuel : nat)
  (spell : spell_type) :
  _effect_string E G fuel spell None = Ok EmptyString.
Proof. by destruct fuel. Qed.

(** X15: [_effect_string] comes back for every spell of a monster, with
    the same text for every depth of calls from one on, when the living
    spell of the monster's kind is not Conjure Living Spells itself; when
    it is, the call for Conjure Living Spells does not come back within
    any depth.  Without a monster the text is empty. *)
Theorem effect_string_returns (E : engine) (G : game_state) :
  (forall (fuel : nat) spell mon,
     (1 <= fuel)%nat ->
     living_spell_type_for E (mi_type mon) <> SPELL_CONJURE_LIVING_SPELLS E ->
     exists s, _effect_string E G fuel spell (Some mon) = Ok s
               /\ _effect_string E G 1 spell (Some mon) = Ok s)
  /\ (forall (fuel : nat) mon,
        living_spell_type_for E (mi_type mon) = SPELL_CONJURE_LIVING_SPELLS E ->
        _effect_string E G fuel (SPELL_CONJURE_LIVING_SPELLS E) (Some mon)
        = Fault out_of_fuel)
  /\ (forall (fuel : nat) spell,
        _effect_string E G fuel spell None = Ok EmptyString).
Proof.
  split; [| split].
  - intros fuel spell mon Hfuel Hliving.
    destruct (effect_string_ok E G fuel spell mon Hfuel Hliving) as [s Hs].
    exists s. split; [exact Hs |]. rewrite <- Hs.
    destruct (Z.eqb_spec spell (SPELL_CONJURE_LIVING_SPELLS E)) as [-> | Hne].
    + destruct fuel as [| fuel]; [lia |]. simpl. rewrite Z.eqb_refl.
      unfold _describe_living_spells.
      by rewrite (effect_string_fuel_free E G fuel _ _ Hliving).
    + rewrite (effect_string_fuel_free E G 1 spell _ Hne).
      by rewrite (effect_string_fuel_free E G fuel spell _ Hne).
  - intros fuel mon Hliving. induction fuel as [| fuel IH]; simpl;
      rewrite Z.eqb_refl; [reflexivity |].
    unfold _describe_living_spells. rewrite Hliving, IH. reflexivity.
  - apply effect_string_none.
Qed.

Lemma effect_string_returns_witness :
  exists s,
    _effect_string Sample.the_engine (Sample.player_at (1, 1)) 3 106
                   (Some Sample.the_monster) = Ok s
    /\ _effect_string Sample.the_engine (Sample.player_at (1, 1)) 1 106
                      (Some Sample.the_monster) = Ok s.
Proof.
  apply (proj1 (effect_string_returns Sample.the_engine
                  (Sample.player_at (1, 1))) 3%nat 106 Sample.the_monster).
  - lia.
  - vm_compute. discriminate.
Defined.

(** ** Descriptions that come back *)

Lemma describe_book_spell_returns (E : engine) (G : game_state) (fuel : nat)
  (spell_map : list (spell_type * Z)) (source_item : option item_def)
  (mon_owner : option monster_info) (hd : Z) (description : formatted_string)
  (first_line_element : bool) (spell : spell_type) :
  (exists s, _effect_string E G fuel spell mon_owner = Ok s) ->
  exists description' first_line_element',
    describe_book_spell E G fuel spell_map source_item mon_owner hd
      (_list_spells_doublecolumn source_item)
      (description, first_line_element) spell
    = Ok (description', first_line_element')
    /\ length (parsed_lines description')
       = S (length (parsed_lines description)).
Proof.
  intros [effect_str Heff]. unfold describe_book_spell. rewrite Heff.
  simpl rbind.
  set (guard := negb (wrap_int (str_length effect_str) =? 0)
                && negb (testbits (get_spell_flags E spell)
                                  (spflag_WL_check E))).
  assert (Hcol : exists s,
    (if guard then _colourize E G effect_str (_spell_colour E spell)
     else Ok effect_str) = Ok s).
  { destruct guard eqn:Hguard; [| by eexists].
    apply colourize_nonempty_ok, effect_len_nonzero.
    unfold guard in Hguard. by apply andb_prop in Hguard as [-> _]. }
  destruct Hcol as [coloured ->]. simpl rbind.
  destruct source_item as [item |]; simpl _list_spells_doublecolumn; cbv iota;
    do 2 eexists; (split; [reflexivity |]);
    rewrite !parsed_lines_app, !length_app; simpl;
    destruct mon_owner; simpl; rewrite ?parsed_lines_app, ?length_app; simpl; lia.
Qed.

Lemma rfold_cons {A S : Type} (body : S -> A -> result S) (x : A)
  (t : list A) (st : S) :
  rfold body (x :: t) st = rbind (body st x) (fun st' => rfold body t st').
Proof. reflexivity. Qed.

Lemma describe_book_loop (E : engine) (G : game_state) (fuel : nat)
  (spell_map : list (spell_type * Z)) (source_item : option item_def)
  (mon_owner : option monster_info) (hd : Z) (l : list spell_type)
  (description : formatted_string) (first_line_element : bool) :
  (forall spell, spell ∈ l ->
     exists s, _effect_string E G fuel spell mon_owner = Ok s) ->
  exists description' first_line_element',
    rfold (describe_book_spell E G fuel spell_map source_item mon_owner hd
             (_list_spells_doublecolumn source_item))
          l (description, first_line_element)
    = Ok (description', first_line_element')
    /\ length (parsed_lines description')
       = (length (parsed_lines description) + length l)%nat.
Proof.
  revert description first_line_element.
  induction l as [| spell t IH]; intros description first_line_element Heff.
  - simpl. do 2 eexists. split; [reflexivity | lia].
  - rewrite rfold_cons.
    destruct (describe_book_spell_returns E G fuel spell_map source_item
                mon_owner hd description first_line_element spell
                (Heff spell ltac:(left)))
      as (d1 & f1 & -> & Hlen1).
    simpl rbind.
    destruct (IH d1 f1) as (d2 & f2 & -> & Hlen2).
    { intros spell' Hin. apply Heff. by right. }
    do 2 eexists. split; [reflexivity |]. simpl length. lia.
Qed.

Lemma describe_book_returns (E : engine) (G : game_state) (fuel : nat)
  (book : spellbook_contents) (spell_map : list (spell_type * Z))
  (source_item : option item_def) (description : formatted_string)
  (mon_owner : option monster_info) :
  (forall spell, spell ∈ spells book ->
     exists s, _effect_string E G fuel spell mon_owner = Ok s) ->
  exists description',
    _describe_book E G fuel book spell_map source_item description mon_owner
    = Ok description'
    /\ length (parsed_lines description')
       = (length (parsed_lines description) + length (spells book))%nat.
Proof.
  intros Heff. unfold _describe_book. cbv zeta.
  match goal with
  | |- context [rfold ?b (spells book) (?d, ?f)] =>
      set (body := b); set (d0 := d);
      destruct (describe_book_loop E G fuel spell_map source_item mon_owner
                  (match mon_owner with
                   | Some mon => mi_spell_hd mon
                   | None => 0
                   end) (spells book) d0 f Heff)
        as (d1 & f1 & Hloop & Hlen);
      change (rfold body (spells book) (d0, f) = Ok (d1, f1)) in Hloop;
      assert (Hstart : length (parsed_lines d0)
                       = length (parsed_lines description))
  end.
  { unfold d0. destruct source_item; [destruct (need_save G) |];
      rewrite !parsed_lines_app, !length_app; simpl; lia. }
  rewrite Hloop. simpl rbind.
  destruct (_ && _); eexists; (split; [reflexivity |]);
    rewrite ?parsed_lines_app, ?length_app; simpl; lia.
Qed.

Lemma describe_spellset_returns (E : engine) (G : game_state) (fuel : nat)
  (spells_ : spellset) (source_item : option item_def)
  (description : formatted_string) (mon_owner : option monster_info) :
  (forall spell, spell ∈ flatten spells_ ->
     exists s, _effect_string E G fuel spell mon_owner = Ok s) ->
  exists description',
    describe_spellset E G fuel spells_ source_item description mon_owner
    = Ok description'
    /\ length (parsed_lines description')
       = (length (parsed_lines description) + length (flatten spells_))%nat.
Proof.
  unfold describe_spellset.
  generalize (map_chars_to_spells spells_ source_item). intros spell_map.
  revert description. induction spells_ as [| book rest IH];
    intros description Heff.
  - simpl. eexists. split; [reflexivity | lia].
  - rewrite rfold_cons.
    destruct (describe_book_returns E G fuel book spell_map source_item
                description mon_owner) as (d1 & -> & Hlen1).
    { intros spell Hin. apply Heff. unfold flatten. simpl.
      apply elem_of_app. by left. }
    simpl rbind.
    destruct (IH d1) as (d2 & -> & Hlen2).
    { intros spell Hin. apply Heff. unfold flatten. simpl.
      apply elem_of_app. by right. }
    eexists. split; [reflexivity |].
    unfold flatten in *. simpl. rewrite length_app. lia.
Qed.

(** X16: for a monster the living spell of whose kind is not Conjure
    Living Spells itself, and a depth of calls of one or more,
    [describe_spellset] comes back with a description, whatever the books
    are; the description has one parsed line more for each spell of each
    book. *)
Theorem describe_monster_spellset_returns (E : engine) (G : game_state)
  (fuel : nat) (spells_ : spellset) (source_item : option item_def)
  (description : formatted_string) (mon : monster_info) :
  (1 <= fuel)%nat ->
  living_spell_type_for E (mi_type mon) <> SPELL_CONJURE_LIVING_SPELLS E ->
  exists description',
    describe_spellset E G fuel spells_ source_item description (Some mon)
    = Ok description'
    /\ length (parsed_lines description')
       = (length (parsed_lines description) + length (flatten spells_))%nat.
Proof.
  intros Hfuel Hliving. apply describe_spellset_returns.
  intros spell _. by apply effect_string_ok.
Qed.

Lemma describe_monster_spellset_returns_witness :
  exists description',
    describe_spellset Sample.the_engine (Sample.player_at (12, 12)) 1
      [ {| label := "A"; spells := [1; 3; 106] |};
        {| label := "B"; spells := [3; 5] |} ]
      None [] (Some Sample.the_monster)
    = Ok description'
    /\ length (parsed_lines description')
       = (length (parsed_lines []) + 5)%nat.
Proof.
  apply (describe_monster_spellset_returns Sample.the_engine
           (Sample.player_at (12, 12)) 1
           [ {| label := "A"; spells := [1; 3; 106] |};
             {| label := "B"; spells := [3; 5] |} ]
           None [] Sample.the_monster).
  - lia.
  - vm_compute. discriminate.
Defined.

(** X17: [describe_item_spells] comes back for every item, in every game
    state and at every depth of calls; the description has one parsed
    line for each spell of the book, and is empty for an item without
    spells. *)
Theorem describe_item_spells_returns (E : engine) (G : game_state)
  (fuel : nat) (item : item_def) :
  exists description,
    describe_item_spells E G fuel item = Ok description
    /\ length (parsed_lines description)
       = (if item_has_spells E item then length (spells_in_book E item)
          else O)
    /\ (item_has_spells E item = false -> description = []).
Proof.
  unfold describe_item_spells.
  destruct (describe_spellset_returns E G fuel (item_spellset E item)
              (Some item) [] None) as (d & Hd & Hlen).
  { intros spell _. exists EmptyString. apply effect_string_none. }
  exists d. split; [exact Hd |]. unfold item_spellset in *.
  destruct (item_has_spells E item); simpl in *.
  - split; [| discriminate]. unfold flatten in Hlen. simpl in Hlen.
    rewrite app_nil_r in Hlen. exact Hlen.
  - split; [exact Hlen |]. intros _. unfold describe_spellset in Hd.
    simpl in Hd. congruence.
Qed.

(** ** The web renderer *)

Lemma rfold_is_ok {A S : Type} (body : S -> A -> result S) (p : A -> bool)
  (l : list A) (st : S) :
  (forall st x, is_ok (body st x) = p x) ->
  is_ok (rfold body l st) = forallb p l.
Proof.
  intros Hbody. revert st. induction l as [| x t IH]; intros st; [reflexivity |].
  rewrite rfold_cons. simpl forallb. rewrite <- (Hbody st x).
  destruct (body st x) as [st' | f]; simpl; [apply IH | reflexivity].
Qed.

Lemma is_ok_bind {A B : Type} (m : result A) (k : A -> result B) (b : bool) :
  (forall a, m = Ok a -> is_ok (k a) = b) ->
  (b = false \/ is_ok m = true) ->
  is_ok (rbind m k) = b.
Proof.
  intros Hk Hm. destruct m as [a | f]; simpl; [by apply Hk |].
  destruct Hm as [-> | Hm]; [reflexivity | discriminate].
Qed.

Lemma write_book_spell_is_ok (E : engine) (G : game_state) (fuel : nat)
  (spell_map : list (spell_type * Z)) (source_item : option item_def) (hd : Z)
  (out : list json_op) (spell : spell_type) :
  is_ok (write_book_spell E G fuel spell_map source_item None hd out spell)
  = web_safe E spell.
Proof.
  unfold write_book_spell, web_safe. rewrite effect_string_none. simpl rbind.
  destruct (testbits (get_spell_flags E spell) (spflag_WL_check E)); simpl.
  - reflexivity.
  - destruct (Z.ltb_spec (_spell_colour E spell) (NUM_TERM_COLOURS E))
      as [Hlt | Hge].
    + unfold _colourize.
      destruct (Z.ltb_spec (_spell_colour E spell) (NUM_TERM_COLOURS E));
        [| lia].
      reflexivity.
    + by rewrite (colourize_empty_faults E G _ Hge).
Qed.

Lemma forallb_flatten (p : spell_type -> bool) (spells_ : spellset) :
  forallb (fun book => forallb p (spells book)) spells_
  = forallb p (flatten spells_).
Proof.
  unfold flatten. induction spells_ as [| book rest IH]; [reflexivity |].
  simpl. by rewrite forallb_app, IH.
Qed.

Lemma write_spellset_is_ok (E : engine) (G : game_state) (fuel : nat)
  (spells_ : spellset) (source_item : option item_def) (out : list json_op) :
  is_ok (write_spellset E G fuel spells_ source_item None out)
  = forallb (web_safe E) (flatten spells_).
Proof.
  unfold write_spellset. cbv zeta.
  rewrite <- forallb_flatten.
  match goal with
  | |- is_ok (rbind (rfold ?b spells_ ?st) _) = _ =>
      pose proof (rfold_is_ok b (fun book => forallb (web_safe E) (spells book))
                              spells_ st) as Hbooks
  end.
  rewrite <- Hbooks.
  - by destruct (rfold _ spells_ _).
  - intros st book. unfold _write_book. cbv zeta.
    match goal with
    | |- is_ok (rbind (rfold ?b (spells book) ?st') _) = _ =>
        rewrite <- (rfold_is_ok b (web_safe E) (spells book) st')
    end.
    + by destruct (rfold _ (spells book) _).
    + intros st' spell. apply write_book_spell_is_ok.
Qed.

(** X18: for spells without a monster (the spells of a book), whether
    [write_spellset] gets through depends on the spells alone: it comes
    back exactly when every spell of every book is checked against
    willpower or has a terminal colour for its effect. *)
Theorem write_item_spellset_ok (E : engine) (G : game_state) (fuel : nat)
  (spells_ : spellset) (source_item : option item_def) (out : list json_op) :
  is_ok (write_spellset E G fuel spells_ source_item None out) = true
  <-> forall spell, spell ∈ flatten spells_ ->
        testbits (get_spell_flags E spell) (spflag_WL_check E) = true
        \/ _spell_colour E spell < NUM_TERM_COLOURS E.
Proof.
  rewrite write_spellset_is_ok, forallb_forall. unfold web_safe.
  split; intros Hall spell Hin.
  - apply list_elem_of_In, Hall in Hin.
    apply orb_prop in Hin as [Hwl | Hcol]; [by left | right].
    by apply Z.ltb_lt.
  - apply list_elem_of_In, Hall in Hin.
    destruct Hin as [-> | Hcol]; [reflexivity |].
    apply Z.ltb_lt in Hcol. rewrite Hcol. apply orb_true_r.
Qed.

Lemma write_item_spellset_ok_witness :
  is_ok (write_spellset Sample.the_engine (Sample.player_at (1, 1)) 0
           [ {| label := "A"; spells := [Sample.spell_magic_dart;
                                         Sample.spell_confuse] |} ]
           (Some Sample.the_book) None []) = true.
Proof.
  apply (write_item_spellset_ok Sample.the_engine (Sample.player_at (1, 1)) 0
           [ {| label := "A"; spells := [Sample.spell_magic_dart;
                                         Sample.spell_confuse] |} ]
           (Some Sample.the_book) []).
  intros spell Hin. unfold flatten in Hin. simpl in Hin.
  apply elem_of_cons in Hin as [-> | Hin]; [right; vm_compute; reflexivity |].
  apply elem_of_cons in Hin as [-> | Hin]; [left; vm_compute; reflexivity |].
  by apply not_elem_of_nil in Hin.
Defined.

Lemma json_nesting_app (a b : list json_op) (stack : list bool) :
  json_nesting (a ++ b) stack
  = match json_nesting a stack with
    | Some stack' => json_nesting b stack'
    | None => None
    end.
Proof.
  revert stack. induction a as [| op a IH]; intros stack; [reflexivity |].
  destruct op; simpl; try apply IH.
  - destruct stack as [| [] stack']; [reflexivity | apply IH | reflexivity].
  - destruct stack as [| [] stack']; [reflexivity | reflexivity | apply IH].
Qed.

Lemma rfold_invariant {A S : Type} (body : S -> A -> result S) (P : S -> Prop)
  (l : list A) (st st' : S) :
  (forall st x st', body st x = Ok st' -> P st -> P st') ->
  P st -> rfold body l st = Ok st' -> P st'.
Proof.
  intros Hbody. revert st. induction l as [| x t IH]; intros st Hst Hrun.
  - simpl in Hrun. by injection Hrun as <-.
  - rewrite rfold_cons in Hrun.
    destruct (body st x) as [st1 |] eqn:Hstep; [| discriminate].
    simpl in Hrun. exact (IH st1 (Hbody _ _ _ Hstep Hst) Hrun).
Qed.

Lemma write_book_spell_nesting (E : engine) (G : game_state) (fuel : nat)
  (spell_map : list (spell_type * Z)) (source_item : option item_def)
  (mon_owner : option monster_info) (hd : Z) (stack0 stack : list bool)
  (out out' : list json_op) (spell : spell_type) :
  write_book_spell E G fuel spell_map source_item mon_owner hd out spell
  = Ok out' ->
  json_nesting out stack0 = Some stack ->
  json_nesting out' stack0 = Some stack.
Proof.
  unfold write_book_spell. intros Hrun Hout.
  destruct (_effect_string E G fuel spell mon_owner) as [eff |];
    [| discriminate].
  simpl rbind in Hrun.
  destruct (if negb _ then _ else _) as [coloured |]; [| discriminate].
  simpl rbind in Hrun. injection Hrun as <-.
  match goal with |- context [if ?b then _ else _] => destruct b end;
    rewrite !json_nesting_app, Hout; reflexivity.
Qed.

Lemma write_book_nesting (E : engine) (G : game_state) (fuel : nat)
  (book : spellbook_contents) (spell_map : list (spell_type * Z))
  (source_item : option item_def) (mon_owner : option monster_info)
  (stack0 stack : list bool) (out out' : list json_op) :
  _write_book E G fuel book spell_map source_item mon_owner out = Ok out' ->
  json_nesting out stack0 = Some stack ->
  json_nesting out' stack0 = Some stack.
Proof.
  unfold _write_book. cbv zeta. intros Hrun Hout.
  destruct (rfold _ (spells book) _) as [out1 |] eqn:Hloop; [| discriminate].
  simpl rbind in Hrun. injection Hrun as <-.
  apply (rfold_invariant _
           (fun o => json_nesting o stack0 = Some (false :: true :: stack)))
    in Hloop.
  - rewrite !json_nesting_app, Hloop. reflexivity.
  - intros st spell st' Hstep Hst.
    eapply write_book_spell_nesting; eassumption.
  - rewrite !json_nesting_app, Hout. reflexivity.
Qed.

(** X19: when [write_spellset] comes back, the calls it has made on the
    JSON writer nest properly: each object and each array it has opened it
    has closed, in the right order, and it has closed nothing else. *)
Theorem write_spellset_nesting (E : engine) (G : game_state) (fuel : nat)
  (spells_ : spellset) (source_item : option item_def)
  (mon_owner : option monster_info) (stack0 stack : list bool)
  (out out' : list json_op) :
  write_spellset E G fuel spells_ source_item mon_owner out = Ok out' ->
  json_nesting out stack0 = Some stack ->
  json_nesting out' stack0 = Some stack.
Proof.
  unfold write_spellset. cbv zeta. intros Hrun Hout.
  destruct (rfold _ spells_ _) as [out1 |] eqn:Hloop; [| discriminate].
  simpl rbind in Hrun. injection Hrun as <-.
  apply (rfold_invariant _
           (fun o => json_nesting o stack0 = Some (false :: stack)))
    in Hloop.
  - rewrite json_nesting_app, Hloop. reflexivity.
  - intros st book st' Hstep Hst.
    eapply write_book_nesting; eassumption.
  - rewrite json_nesting_app, Hout. reflexivity.
Qed.

Lemma write_spellset_nesting_witness :
  exists out',
    write_spellset Sample.the_engine (Sample.player_at (12, 12)) 1
      [ {| label := "A"; spells := [1; 4] |}; {| label := "B"; spells := [3] |} ]
      None (Some Sample.the_monster) []
    = Ok out'
    /\ json_nesting out' [] = Some [].
Proof.
  eexists. split; [vm_compute; reflexivity |].
  eapply (write_spellset_nesting Sample.the_engine (Sample.player_at (12, 12)) 1
            [ {| label := "A"; spells := [1; 4] |};
              {| label := "B"; spells := [3] |} ]
            None (Some Sample.the_monster) [] [] []).
  - vm_compute. reflexivity.
  - reflexivity.
Defined.

(** ** Monster books *)

Lemma emplace_all (breaths acc : list spell_type) :
  fold_left (fun l breath => l ++ [breath]) breaths acc = acc ++ breaths.
Proof.
  revert acc. induction breaths as [| b t IH]; intros acc; simpl.
  - by rewrite app_nil_r.
  - by rewrite IH, <- app_assoc.
Qed.

(** The loop over the slots of a book. *)
Lemma monster_book_loop (E : engine) (M : monster_engine)
  (slots : list mon_spell_slot) (acc : list spell_type) (abjure : bool) :
  breaths_known M slots ->
  ofold (monster_book_slot E M) slots (acc, abjure)
  = Some (acc ++ List.concat (List.map (slot_spells M) slots),
          abjure || existsb (slot_abjures E M) slots).
Proof.
  revert acc abjure. induction slots as [| slot t IH];
    intros acc abjure Hknown.
  - simpl. by rewrite app_nil_r, orb_false_r.
  - assert (Ht : breaths_known M t).
    { intros slot' Hin. apply Hknown. by right. }
    simpl ofold. unfold monster_book_slot at 1.
    destruct (spell_is_soh_breath M (slot_spell slot)) eqn:Hbreath; simpl negb;
      cbv iota.
    + destruct (soh_breath_spells M (slot_spell slot)) as [breaths |] eqn:Hb;
        [| exfalso; exact (Hknown slot ltac:(left) Hbreath Hb)].
      rewrite emplace_all. rewrite (IH _ _ Ht). simpl List.map.
      simpl List.concat. simpl existsb. unfold slot_spells, slot_abjures.
      rewrite Hbreath, Hb. simpl. by rewrite <- app_assoc.
    + rewrite (IH _ _ Ht). simpl List.map.
      simpl List.concat. simpl existsb. unfold slot_spells, slot_abjures.
      rewrite Hbreath. simpl.
      rewrite <- app_assoc. simpl. f_equal. f_equal.
      destruct (Z.land _ _ =? 0); simpl; [reflexivity |].
      by rewrite orb_true_r.
Qed.

Lemma abjure_last (book_spells : list spell_type) (abjure : bool)
  (abjuration : spell_type) :
  (if abjure then ([] ++ book_spells) ++ [abjuration] else [] ++ book_spells)
  = book_spells ++ (if abjure then [abjuration] else []).
Proof. destruct abjure; simpl; by rewrite ?app_nil_r. Qed.

Lemma monster_spellbooks_closed (E : engine) (M : monster_engine)
  (mi : monster_info) (type : mon_spell_slot_flag) (all_books : spellset)
  (header : string) :
  get_unique_spells M mi type <> [] ->
  _booktype_header E M type (mi_pronoun_plurality M mi) = Some header ->
  breaths_known M (get_unique_spells M mi type) ->
  _monster_spellbooks E M mi type all_books
  = Some (all_books
          ++ [ {| label := monster_book_label M mi header;
                  spells := slots_book E M (get_unique_spells M mi type) |} ]).
Proof.
  unfold _monster_spellbooks. cbv zeta.
  intros Hslots Hheader Hknown.
  destruct (get_unique_spells M mi type) as [| slot t] eqn:Heq; [done |].
  rewrite Hheader, (monster_book_loop E M (slot :: t) [] false Hknown).
  unfold slots_book.
  rewrite <- (abjure_last (List.concat (List.map (slot_spells M) (slot :: t)))
                          (existsb (slot_abjures E M) (slot :: t))
                          (SPELL_ABJURATION M)).
  reflexivity.
Qed.

(** X20: [_monster_spellbooks] adds no book for a kind of spells the
    monster has no slot of.  Otherwise, under a header and with the
    breaths of all breath spells known, it adds one book: the spells of
    the slots in their order, each breath spell replaced by its breaths,
    and Abjuration behind them exactly when an ordinary spell of the
    slots lets the monster abjure. *)
Theorem monster_spellbooks_book (E : engine) (M : monster_engine)
  (mi : monster_info) (type : mon_spell_slot_flag) (all_books : spellset) :
  (get_unique_spells M mi type = [] ->
   _monster_spellbooks E M mi type all_books = Some all_books)
  /\ (forall header,
        get_unique_spells M mi type <> [] ->
        _booktype_header E M type (mi_pronoun_plurality M mi) = Some header ->
        breaths_known M (get_unique_spells M mi type) ->
        _monster_spellbooks E M mi type all_books
        = Some (all_books
                ++ [ {| label := monster_book_label M mi header;
                        spells := slots_book E M (get_unique_spells M mi type) |} ])).
Proof.
  split.
  - unfold _monster_spellbooks. cbv zeta. by intros ->.
  - intros header. apply monster_spellbooks_closed.
Qed.

Lemma sample_breaths_known (E : engine) (mi : monster_info)
  (type : mon_spell_slot_flag) :
  breaths_known Sample.the_monster_engine
    (get_unique_spells Sample.the_monster_engine mi type).
Proof.
  intros slot _. simpl.
  destruct (slot_spell slot =? 112); [discriminate | done].
Qed.

Lemma monster_spellbooks_book_witness :
  _monster_spellbooks Sample.the_summoner_engine Sample.the_monster_engine
    Sample.the_monster 16 []
  = Some [ {| label :=
                monster_book_label Sample.the_monster_engine Sample.the_monster
                  "has mastered the following spells, which are affected by silence and antimagic:";
              spells := [1; 111; 4; 110] |} ].
Proof.
  apply (proj2 (monster_spellbooks_book Sample.the_summoner_engine
                  Sample.the_monster_engine Sample.the_monster 16 [])).
  - vm_compute. discriminate.
  - vm_compute. reflexivity.
  - apply (sample_breaths_known Sample.the_summoner_engine).
Defined.

Lemma booktype_header_some (E : engine) (M : monster_engine)
  (type : mon_spell_slot_flag) (pronoun_plural : bool) :
  type ∈ book_flags E ->
  exists header, _booktype_header E M type pronoun_plural = Some header.
Proof.
  intros Hin.
  destruct (_booktype_header E M type pronoun_plural) as [h |] eqn:Hh;
    [by exists h |].
  apply booktype_header_none, vulnerabilities_none in Hh.
  exfalso. apply Hh. unfold book_flags in Hin. set_solver.
Qed.

Lemma monster_spellbooks_step (E : engine) (M : monster_engine)
  (mi : monster_info) (flag : mon_spell_slot_flag) (acc : spellset) :
  flag ∈ book_flags E ->
  breaths_known M (get_unique_spells M mi flag) ->
  exists acc1,
    _monster_spellbooks E M mi flag acc = Some acc1
    /\ List.map spells acc1
       = List.map spells acc
         ++ List.map (slots_book E M)
              (filter (fun slots => slots <> []) [get_unique_spells M mi flag]).
Proof.
  intros Hflag Hknown.
  destruct (booktype_header_some E M flag (mi_pronoun_plurality M mi) Hflag)
    as [header Hheader].
  destruct (decide (get_unique_spells M mi flag = [])) as [Hnil | Hne].
  - exists acc. split.
    + unfold _monster_spellbooks. cbv zeta. by rewrite Hnil.
    + rewrite filter_cons_False by (intros Hne; by apply Hne).
      simpl. by rewrite app_nil_r.
  - rewrite (monster_spellbooks_closed E M mi flag acc header Hne Hheader Hknown).
    eexists. split; [reflexivity |].
    rewrite filter_cons_True by exact Hne.
    by rewrite List.map_app.
Qed.

(** The loop of [monster_spellset] over the kinds of spells. *)
Lemma monster_books_loop (E : engine) (M : monster_engine) (mi : monster_info)
  (flags : list mon_spell_slot_flag) (acc : spellset) :
  (forall flag, flag ∈ flags -> flag ∈ book_flags E) ->
  (forall flag, flag ∈ flags -> breaths_known M (get_unique_spells M mi flag)) ->
  exists books,
    ofold (fun books book_flag => _monster_spellbooks E M mi book_flag books)
          flags acc = Some books
    /\ List.map spells books
       = List.map spells acc
         ++ List.map (slots_book E M)
              (filter (fun slots => slots <> [])
                      (List.map (get_unique_spells M mi) flags)).
Proof.
  revert acc. induction flags as [| flag rest IH]; intros acc Hflags Hknown.
  - exists acc. split; [reflexivity |]. simpl. by rewrite app_nil_r.
  - simpl ofold.
    assert (Hrest : forall flag', flag' ∈ rest -> flag' ∈ book_flags E)
      by (intros flag' Hin; apply Hflags; by right).
    assert (Hrestk : forall flag', flag' ∈ rest ->
              breaths_known M (get_unique_spells M mi flag'))
      by (intros flag' Hin; apply Hknown; by right).
    destruct (monster_spellbooks_step E M mi flag acc
                (Hflags flag ltac:(left)) (Hknown flag ltac:(left)))
      as (acc1 & -> & Hacc1).
    destruct (IH acc1 Hrest Hrestk) as (books & -> & Hbooks).
    exists books. split; [reflexivity |].
    rewrite Hbooks, Hacc1. simpl List.map.
    destruct (decide (get_unique_spells M mi flag = [])) as [Hnil | Hnil].
    + rewrite !(filter_cons_False _ (get_unique_spells M mi flag))
        by (intros Hne; exact (Hne Hnil)).
      rewrite filter_nil. simpl. by rewrite app_nil_r.
    + rewrite !(filter_cons_True _ (get_unique_spells M mi flag)) by exact Hnil.
      rewrite filter_nil. simpl. by rewrite <- app_assoc.
Qed.

(** X21: with the breaths of all breath spells known, [monster_spellset]
    fails its assertion exactly for a monster that has spells but no slot
    of any kind.  Otherwise it returns the books of the kinds of spells the
    monster has slots of, in the order natural, vocal, magical, priestly,
    wizardly: five books at most, none for a monster without spells. *)
Theorem monster_spellset_books (E : engine) (M : monster_engine)
  (mi : monster_info) :
  (forall flag, flag ∈ book_flags E ->
     breaths_known M (get_unique_spells M mi flag)) ->
  (monster_spellset E M mi = None
   <-> mi_has_spells M mi = true
       /\ forall flag, flag ∈ book_flags E -> get_unique_spells M mi flag = [])
  /\ (forall books,
        monster_spellset E M mi = Some books ->
        (length books <= 5)%nat
        /\ List.map spells books
           = if mi_has_spells M mi
             then List.map (slots_book E M) (slot_lists E M mi)
             else []).
Proof.
  intros Hknown. unfold monster_spellset.
  destruct (monster_books_loop E M mi (book_flags E) [])
    as (books & Hloop & Hspells); [done | exact Hknown |].
  rewrite Hloop. simpl in Hspells. fold (slot_lists E M mi) in Hspells.
  assert (Hlen : length books = length (slot_lists E M mi)).
  { by rewrite <- (length_map spells), Hspells, length_map. }
  assert (Hfive : (length (slot_lists E M mi) <= 5)%nat).
  { unfold slot_lists.
    etransitivity; [apply length_filter |]. by rewrite length_map. }
  assert (Hempty : slot_lists E M mi = []
                   <-> forall flag, flag ∈ book_flags E ->
                         get_unique_spells M mi flag = []).
  { unfold slot_lists. split.
    - intros Hnil flag Hin.
      destruct (decide (get_unique_spells M mi flag = [])) as [| Hne]; [done |].
      exfalso.
      assert (Hmem : get_unique_spells M mi flag
                     ∈ filter (fun slots => slots <> [])
                              (List.map (get_unique_spells M mi) (book_flags E))).
      { apply list_elem_of_filter. split; [exact Hne |].
        apply list_elem_of_fmap. by exists flag. }
      rewrite Hnil in Hmem. by apply not_elem_of_nil in Hmem.
    - intros Hall. unfold book_flags in *. simpl List.map.
      rewrite !Hall by set_solver. reflexivity. }
  destruct (mi_has_spells M mi); simpl negb; cbv iota.
  - destruct books as [| book rest]; simpl Nat.eqb; cbv iota.
    + split.
      * split; [| done]. intros _. split; [done |].
        apply Hempty. by destruct (slot_lists E M mi).
      * intros books' Hsome. discriminate.
    + split.
      * split; [discriminate |]. intros [_ Hall]. apply Hempty in Hall.
        rewrite Hall in Hlen. discriminate.
      * intros books' Hsome. injection Hsome as <-.
        split; [rewrite Hlen; exact Hfive | exact Hspells].
  - split.
    + split; [discriminate |]. intros [Hhas _]. discriminate.
    + intros books' Hsome. injection Hsome as <-. split; [simpl; lia | done].
Qed.

Lemma monster_spellset_books_witness :
  monster_spellset Sample.the_summoner_engine Sample.the_monster_engine
    {| mi_type := 9; mi_pos := (1, 1); mi_hd := 1; mi_spell_hd := 1;
       mi_attitude := 0 |}
  = None
  /\ exists books,
       monster_spellset Sample.the_summoner_engine Sample.the_monster_engine
         Sample.the_monster = Some books
       /\ (length books <= 5)%nat
       /\ List.map spells books = [[3; 2]; [1; 111; 4; 110]].
Proof.
  split.
  - apply (proj1 (monster_spellset_books Sample.the_summoner_engine
                    Sample.the_monster_engine _
                    (fun flag _ =>
                       sample_breaths_known Sample.the_summoner_engine _ flag))).
    split; [reflexivity |]. intros flag _. reflexivity.
  - eexists. split; [vm_compute; reflexivity |].
    apply (proj2 (monster_spellset_books Sample.the_summoner_engine
                    Sample.the_monster_engine Sample.the_monster
                    (fun flag _ =>
                       sample_breaths_known Sample.the_summoner_engine _ flag))).
    vm_compute. reflexivity.
Defined.

(** ** Letters of the alphabet *)

(** X22: when the set has at most 26 different spells, every character
    that [map_chars_to_spells] hands out is a small letter: the entry at
    position [k] carries the character with the code of ['a'] plus [k],
    between ['a'] and ['z']. *)
Theorem map_chars_small_letters (spells_ : spellset)
  (source_item : option item_def) (k : nat) (spell : spell_type) (ch : Z) :
  (length (_spellset_contents spells_) <= 26)%nat ->
  map_chars_to_spells spells_ source_item !! k = Some (spell, ch) ->
  ch = 97 + Z.of_nat k /\ 97 <= ch <= 122.
Proof.
  intros Hlen Hk.
  assert (Hbound : (k < 26)%nat).
  { apply lookup_lt_Some in Hk.
    assert (Hsize : length (map_chars_to_spells spells_ source_item)
                    = length (_spellset_contents spells_)).
    { rewrite <- (length_fmap fst).
      apply Permutation_length, map_chars_keys. }
    lia. }
  rewrite (map_chars_entry_letter _ _ _ _ _ Hk).
  by apply letter_at_alphabet.
Qed.

Lemma map_chars_small_letters_witness :
  map_chars_to_spells (Sample.numbered_book 5) None !! 3%nat = Some (1, 100)
  /\ 100 = 97 + Z.of_nat 3 /\ 97 <= 100 <= 122.
Proof.
  split; [vm_compute; reflexivity |].
  apply (map_chars_small_letters (Sample.numbered_book 5) None 3 1 100).
  - vm_compute. lia.
  - vm_compute. reflexivity.
Defined.

(** ** Faults *)

(** X23: [_colourize] reads outside of the text in one case only: the
    text is empty and the colour is an element colour.  With a terminal
    colour, or on a text that is not empty, it comes back with a text. *)
Theorem colourize_fault_iff (E : engine) (G : game_state) (base : string)
  (col : colour_t) :
  is_ok (_colourize E G base col) = false
  <-> base = EmptyString /\ NUM_TERM_COLOURS E <= col.
Proof.
  split.
  - intros Hfault. destruct (Z.lt_ge_cases col (NUM_TERM_COLOURS E)) as [Hlt | Hge].
    + exfalso. unfold _colourize in Hfault.
      destruct (Z.ltb_spec col (NUM_TERM_COLOURS E)); [discriminate | lia].
    + split; [| exact Hge].
      destruct base as [| c t]; [reflexivity |].
      destruct (colourize_nonempty_ok E G (String c t) col ltac:(done))
        as [s Hs].
      rewrite Hs in Hfault. discriminate.
  - intros [-> Hge]. by rewrite colourize_empty_faults.
Qed.

Lemma colourize_fault_iff_witness :
  is_ok (_colourize Sample.the_engine (Sample.player_at (1, 1)) EmptyString
                    Sample.etc_fire) = false.
Proof.
  apply (colourize_fault_iff Sample.the_engine (Sample.player_at (1, 1))
                             EmptyString Sample.etc_fire).
  split; [reflexivity | vm_compute; discriminate].
Defined.

Lemma effect_string_fault (E : engine) (G : game_state) (fuel : nat)
  (spell : spell_type) (mon_owner : option monster_info) (f : fault) :
  _effect_string E G fuel spell mon_owner = Fault f -> f = out_of_fuel.
Proof.
  revert spell. induction fuel as [| fuel IH]; intros spell Hfault.
  - destruct (Z.eqb_spec spell (SPELL_CONJURE_LIVING_SPELLS E)) as [-> | Hne].
    + destruct mon_owner as [mon |]; simpl in Hfault; [| discriminate].
      rewrite Z.eqb_refl in Hfault. congruence.
    + destruct (effect_string_plain_ok E G 0 spell mon_owner Hne) as [s Hs].
      congruence.
  - destruct (Z.eqb_spec spell (SPELL_CONJURE_LIVING_SPELLS E)) as [-> | Hne].
    + destruct mon_owner as [mon |]; simpl in Hfault; [| discriminate].
      rewrite Z.eqb_refl in Hfault. unfold _describe_living_spells in Hfault.
      destruct (_effect_string E G fuel _ (Some mon)) as [base | f'] eqn:Hbase.
      * simpl rbind in Hfault.
        destruct (string_at_ok base 0) as [c0 Hc0];
          [pose proof (str_length_nonneg base); lia |].
        rewrite Hc0 in Hfault. discriminate.
      * simpl in Hfault. injection Hfault as <-. exact (IH _ Hbase).
    + destruct (effect_string_plain_ok E G (S fuel) spell mon_owner Hne)
        as [s Hs].
      congruence.
Qed.

Lemma rfold_fault {A S : Type} (body : S -> A -> result S) (P : fault -> Prop)
  (l : list A) (st : S) (f : fault) :
  (forall st x f, body st x = Fault f -> P f) ->
  rfold body l st = Fault f -> P f.
Proof.
  intros Hbody. revert st. induction l as [| x t IH]; intros st Hrun;
    [discriminate |].
  rewrite rfold_cons in Hrun.
  destruct (body st x) as [st1 | f1] eqn:Hstep; simpl in Hrun.
  - exact (IH st1 Hrun).
  - injection Hrun as <-. exact (Hbody _ _ _ Hstep).
Qed.

Lemma describe_book_spell_fault (E : engine) (G : game_state) (fuel : nat)
  (spell_map : list (spell_type * Z)) (source_item : option item_def)
  (mon_owner : option monster_info) (hd : Z) (st : formatted_string * bool)
  (spell : spell_type) (f : fault) :
  describe_book_spell E G fuel spell_map source_item mon_owner hd
    (_list_spells_doublecolumn source_item) st spell = Fault f ->
  f = out_of_fuel.
Proof.
  intros Hfault. destruct st as [description first_line_element].
  destruct (_effect_string E G fuel spell mon_owner) as [s | f'] eqn:Heff.
  - destruct (describe_book_spell_returns E G fuel spell_map source_item
                mon_owner hd description first_line_element spell)
      as (d & fl & Hok & _); [by exists s |].
    congruence.
  - unfold describe_book_spell in Hfault. rewrite Heff in Hfault.
    simpl in Hfault. injection Hfault as <-.
    exact (effect_string_fault _ _ _ _ _ _ Heff).
Qed.

(** X24: the console renderer never reads outside of a text and never
    reads through a null pointer: when [describe_spellset] does not come
    back with a description, the one reason is that the calls between
    [_effect_string] and [_describe_living_spells] went deeper than the
    depth allowed. *)
Theorem describe_spellset_fault (E : engine) (G : game_state) (fuel : nat)
  (spells_ : spellset) (source_item : option item_def)
  (description : formatted_string) (mon_owner : option monster_info)
  (f : fault) :
  describe_spellset E G fuel spells_ source_item description mon_owner
  = Fault f ->
  f = out_of_fuel.
Proof.
  unfold describe_spellset. cbv zeta.
  apply (rfold_fault _ (fun f => f = out_of_fuel)).
  intros d book f' Hbook. unfold _describe_book in Hbook. cbv zeta in Hbook.
  match type of Hbook with
  | rbind (rfold ?b ?l ?st) _ = _ =>
      destruct (rfold b l st) as [st1 | f1] eqn:Hloop
  end.
  - simpl in Hbook. by destruct (_ && _).
  - simpl in Hbook. injection Hbook as <-.
    apply (rfold_fault _ (fun f => f = out_of_fuel)) in Hloop; [exact Hloop |].
    intros st spell f2. apply describe_book_spell_fault.
Qed.

Lemma describe_spellset_fault_witness :
  describe_spellset Sample.the_engine (Sample.player_at (1, 1)) 0
    [ {| label := "A"; spells := [1; 106] |} ] None []
    (Some Sample.the_monster)
  = Fault out_of_fuel.
Proof.
  assert (Hfault : exists f,
    describe_spellset Sample.the_engine (Sample.player_at (1, 1)) 0
      [ {| label := "A"; spells := [1; 106] |} ] None []
      (Some Sample.the_monster) = Fault f)
    by (eexists; vm_compute; reflexivity).
  destruct Hfault as [f Hf]. rewrite Hf. f_equal.
  exact (describe_spellset_fault _ _ _ _ _ _ _ _ Hf).
Defined.

End DescribeSpellsProofs.
